(** * family_jackbox: the round state machine of [app.py]

    A shallow embedding of the game logic of [src/app.py] (the [GameState]
    class, the helper functions and the socket event handlers) together with
    the properties of the round state machine, the scoring pass and the
    state broadcast.

    Conventions of the embedding.
    - Python strings are sequences of code points below 256; [lower] and
      [strip] are Python's [str.lower] and [str.strip] on that range.
    - A Python [dict] is an association list in insertion order: assigning
      to an existing key keeps its position, a new key goes last.
    - The handlers mutate the global [game] and may raise; a raised
      exception leaves every mutation made before it in place.  Handlers
      are therefore computations [World -> Res A * World].
    - [random.shuffle] draws from a tape of numbers carried by the world.
    - Everything sent with [emit]/[socketio.emit] is appended to the
      world's [outbox], with its audience.
    - The timer task is advanced by an event of its own, one per second
      slept; an exception in its callback ends the task like a handler. *)

From Stdlib Require Import List String Ascii ZArith Arith Bool Lia Permutation Sorted.
Import ListNotations.

Local Open Scope string_scope.
Local Open Scope list_scope.

(* ===================================================================== *)
(** ** Python strings *)
(* ===================================================================== *)

Module PyStr.

(** [str.isspace] on one code point below 256: TAB..CR, FS..US, space,
    NEL and NBSP. *)
Definition isspace (c : ascii) : bool :=
  let n := nat_of_ascii c in
  (((9 <=? n) && (n <=? 13)) || ((28 <=? n) && (n <=? 32))
   || (n =? 133) || (n =? 160))%nat.

(** [str.lower] on one code point below 256: A..Z and the Latin-1
    capitals (all of 192..222 but the multiplication sign 215). *)
Definition lower_char (c : ascii) : ascii :=
  let n := nat_of_ascii c in
  if (((65 <=? n) && (n <=? 90))
      || ((192 <=? n) && (n <=? 222) && negb (n =? 215)))%nat
  then ascii_of_nat (n + 32) else c.

Fixpoint lower (s : string) : string :=
  match s with
  | EmptyString => EmptyString
  | String c s' => String (lower_char c) (lower s')
  end.

Fixpoint lstrip (s : string) : string :=
  match s with
  | EmptyString => EmptyString
  | String c s' => if isspace c then lstrip s' else s
  end.

Fixpoint rstrip (s : string) : string :=
  match s with
  | EmptyString => EmptyString
  | String c s' =>
      match rstrip s' with
      | EmptyString => if isspace c then EmptyString else String c EmptyString
      | r => String c r
      end
  end.

Definition strip (s : string) : string := rstrip (lstrip s).

(** Truth value of a string: non-empty. *)
Definition truthy (s : string) : bool :=
  match s with EmptyString => false | _ => true end.

End PyStr.

(* ===================================================================== *)
(** ** Python dictionaries keyed by session id *)
(* ===================================================================== *)

Definition Sid := string.

Module Dict.
Section Dict.
Context {V : Type}.

Definition t := list (Sid * V).

Definition empty : t := [].

(** [d.get(k)] / [k in d] *)
Fixpoint get (k : Sid) (d : t) : option V :=
  match d with
  | [] => None
  | (k', v) :: d' => if String.eqb k k' then Some v else get k d'
  end.

Definition mem (k : Sid) (d : t) : bool :=
  match get k d with Some _ => true | None => false end.

(** [d[k] = v] *)
Fixpoint set (k : Sid) (v : V) (d : t) : t :=
  match d with
  | [] => [(k, v)]
  | (k', v') :: d' =>
      if String.eqb k k' then (k, v) :: d' else (k', v') :: set k v d'
  end.

Definition keys (d : t) : list Sid := map fst d.
Definition values (d : t) : list V := map snd d.
Definition items (d : t) : list (Sid * V) := d.
Definition len (d : t) : nat := List.length d.

End Dict.
Arguments t : clear implicits.
End Dict.

(* ===================================================================== *)
(** ** Data structures *)
(* ===================================================================== *)

Module Question.
Record t := mk { text : string; answer : string; house_lies : list string }.
End Question.

(** A player record [{'name', 'score', 'connected'}]. *)
Module Player.
Record t := mk { name : string; score : Z; connected : bool }.
Definition add_score (n : Z) (p : t) : t :=
  mk (name p) (score p + n) (connected p).
Definition set_connected (b : bool) (p : t) : t :=
  mk (name p) (score p) b.
End Player.

(** An entry of [game.current_options]; only player lies carry ['sid']. *)
Module Opt.
Inductive kind := TRUTH | LIE | HOUSE_LIE.
Record t := mk { text : string; type : kind; author : string;
                 sid : option Sid }.
Definition kind_eqb (a b : kind) : bool :=
  match a, b with
  | TRUTH, TRUTH | LIE, LIE | HOUSE_LIE, HOUSE_LIE => true
  | _, _ => false
  end.
End Opt.

(** An entry of [game.reveal_sequence]; ['type'] is ['LIE'] or ['TRUTH']. *)
Module Reveal.
Inductive kind := LIE | TRUTH.
Record t := mk { type : kind; text : string; author : string;
                 voters : list string }.
End Reveal.

Inductive Phase := LOBBY | BLUFF_INPUT | VOTING | REVEAL | SCOREBOARD.


(** The two completion actions handed to [start_timer]. *)
Inductive Callback := auto_advance_input_cb | auto_advance_voting_cb.

(** The object that [socketio.start_background_task] returns: the task that
    runs [timer_loop], named by the callback it will call.  It is sleeping
    in its loop ([Running]) or has left it ([Ended]). *)
Inductive Task := Running (next_callback : Callback) | Ended (next_callback : Callback).

(** [timer_thread] is [None] until the first task is created and holds the
    task object from then on: nothing assigns [None] to it again.
    [current_options] and [reveal_sequence] are attributes that [__init__]
    does not create: [None] is "not set yet". *)
Record GameState := mkGame {
  state : Phase;
  players : Dict.t Player.t;
  questions : list Question.t;
  current_question_index : nat;
  submissions : Dict.t string;
  house_lies_active : list string;
  votes : Dict.t string;
  timer_thread : option Task;
  time_left : Z;
  current_options : option (list Opt.t);
  reveal_sequence : option (list Reveal.t)
}.

(** [GameState.__init__] *)
Definition init : GameState :=
  mkGame LOBBY Dict.empty [] 0 Dict.empty [] Dict.empty None 0 None None.

Definition set_state v g := mkGame v (players g) (questions g)
  (current_question_index g) (submissions g) (house_lies_active g) (votes g)
  (timer_thread g) (time_left g) (current_options g) (reveal_sequence g).
Definition set_players v g := mkGame (state g) v (questions g)
  (current_question_index g) (submissions g) (house_lies_active g) (votes g)
  (timer_thread g) (time_left g) (current_options g) (reveal_sequence g).
Definition set_questions v g := mkGame (state g) (players g) v
  (current_question_index g) (submissions g) (house_lies_active g) (votes g)
  (timer_thread g) (time_left g) (current_options g) (reveal_sequence g).
Definition set_current_question_index v g := mkGame (state g) (players g)
  (questions g) v (submissions g) (house_lies_active g) (votes g)
  (timer_thread g) (time_left g) (current_options g) (reveal_sequence g).
Definition set_submissions v g := mkGame (state g) (players g) (questions g)
  (current_question_index g) v (house_lies_active g) (votes g)
  (timer_thread g) (time_left g) (current_options g) (reveal_sequence g).
Definition set_house_lies_active v g := mkGame (state g) (players g)
  (questions g) (current_question_index g) (submissions g) v (votes g)
  (timer_thread g) (time_left g) (current_options g) (reveal_sequence g).
Definition set_votes v g := mkGame (state g) (players g) (questions g)
  (current_question_index g) (submissions g) (house_lies_active g) v
  (timer_thread g) (time_left g) (current_options g) (reveal_sequence g).
Definition set_timer_thread v g := mkGame (state g) (players g) (questions g)
  (current_question_index g) (submissions g) (house_lies_active g) (votes g)
  v (time_left g) (current_options g) (reveal_sequence g).
Definition set_time_left v g := mkGame (state g) (players g) (questions g)
  (current_question_index g) (submissions g) (house_lies_active g) (votes g)
  (timer_thread g) v (current_options g) (reveal_sequence g).
Definition set_current_options v g := mkGame (state g) (players g)
  (questions g) (current_question_index g) (submissions g)
  (house_lies_active g) (votes g) (timer_thread g) (time_left g) v
  (reveal_sequence g).
Definition set_reveal_sequence v g := mkGame (state g) (players g)
  (questions g) (current_question_index g) (submissions g)
  (house_lies_active g) (votes g) (timer_thread g) (time_left g)
  (current_options g) v.

(** *** Methods of [GameState] *)

Definition add_player (sid : Sid) (name : string) (g : GameState) : GameState :=
  set_players (Dict.set sid (Player.mk name 0 true) (players g)) g.

Definition remove_player (sid : Sid) (g : GameState) : GameState :=
  match Dict.get sid (players g) with
  | Some p => set_players (Dict.set sid (Player.set_connected false p) (players g)) g
  | None => g
  end.

(** [next_round] returns the new state and its boolean result. *)
Definition next_round (g : GameState) : GameState * bool :=
  let g1 := set_current_question_index (current_question_index g + 1) g in
  if (List.length (questions g1) <=? current_question_index g1)%nat
  then (g1, false) else (g1, true).

Definition reset_round_data (g : GameState) : GameState :=
  set_house_lies_active [] (set_votes Dict.empty (set_submissions Dict.empty g)).

(* ===================================================================== *)
(** ** Outbound messages *)
(* ===================================================================== *)

(** The phase-specific part of [host_data]. *)
Inductive View :=
| LobbyView (room_code : string)
| BluffInputView (question : string) (submitted_players : list string)
| VotingView (question : string) (options : list Opt.t)
| RevealView (reveal_sequence : list Reveal.t) (question truth : string)
| ScoreboardView (leaderboard : list Player.t).

Record HostData := mkHostData {
  hd_state : Phase;
  hd_time_left : Z;
  hd_players : list Player.t;
  hd_view : View
}.

Inductive Message :=
| state_update (d : HostData)
| host_state_update (st : Phase) (qs : list Question.t)
| timer_update (time_left : Z)
| connected (sid : Sid)
| joined_success (name : string)
| question_added (q : Question.t)
| submitted_success
| voted_success
| error (message : string).

(** [socketio.emit] and [emit(..., broadcast=True)] reach every connected
    client; a plain [emit] inside a handler answers the requesting client. *)
Inductive Audience := ToAll | ToSid (sid : Sid).

Record Emit := mkEmit { audience : Audience; message : Message }.

(* ===================================================================== *)
(** ** The handler monad *)
(* ===================================================================== *)

Record World := mkWorld {
  game : GameState;
  outbox : list Emit;
  rng : list nat
}.

Inductive Exn := IndexError | KeyError | AttributeError.

Inductive Res (A : Type) := Ok (a : A) | Raise (e : Exn).
Arguments Ok {A} a.
Arguments Raise {A} e.

Definition M (A : Type) := World -> Res A * World.

Definition ret {A} (a : A) : M A := fun w => (Ok a, w).

Definition bind {A B} (c : M A) (k : A -> M B) : M B :=
  fun w => match c w with
           | (Ok a, w') => k a w'
           | (Raise e, w') => (Raise e, w')
           end.

Definition raise {A} (e : Exn) : M A := fun w => (Raise e, w).

Declare Scope py_scope.
Delimit Scope py_scope with py.
Notation "x <- c ;; k" := (bind c (fun x => k))
  (at level 61, c at next level, right associativity) : py_scope.
Notation "c ;; k" := (bind c (fun _ => k))
  (at level 61, right associativity) : py_scope.
Local Open Scope py_scope.

Definition get_game : M GameState := fun w => (Ok (game w), w).

Definition modify (f : GameState -> GameState) : M unit :=
  fun w => (Ok tt, mkWorld (f (game w)) (outbox w) (rng w)).

Definition emit (a : Audience) (m : Message) : M unit :=
  fun w => (Ok tt, mkWorld (game w) (outbox w ++ [mkEmit a m]) (rng w)).

Fixpoint foldM {A B} (f : B -> A -> M B) (b : B) (l : list A) : M B :=
  match l with
  | [] => ret b
  | a :: l' => b' <- f b a ;; foldM f b' l'
  end.

Definition forM_ {A} (l : list A) (f : A -> M unit) : M unit :=
  foldM (fun _ a => f a) tt l.

(** [game.questions[game.current_question_index]] *)
Definition current_question : M Question.t :=
  g <- get_game ;;
  match nth_error (questions g) (current_question_index g) with
  | Some q => ret q
  | None => raise IndexError
  end.

(** [game.players[sid]] *)
Definition player_at (sid : Sid) : M Player.t :=
  g <- get_game ;;
  match Dict.get sid (players g) with
  | Some p => ret p
  | None => raise KeyError
  end.

(** [game.current_options] *)
Definition get_current_options : M (list Opt.t) :=
  g <- get_game ;;
  match current_options g with
  | Some o => ret o
  | None => raise AttributeError
  end.

(** [game.reveal_sequence] *)
Definition get_reveal_sequence : M (list Reveal.t) :=
  g <- get_game ;;
  match reveal_sequence g with
  | Some r => ret r
  | None => raise AttributeError
  end.

(** [game.players[sid]['score'] += n] *)
Definition add_score (sid : Sid) (n : Z) : M unit :=
  p <- player_at sid ;;
  modify (fun g => set_players (Dict.set sid (Player.add_score n p) (players g)) g).

(* ===================================================================== *)
(** ** random.shuffle *)
(* ===================================================================== *)

(** [randbelow(n)]: the next number of the tape, reduced below [n]. *)
Definition randbelow (n : nat) : M nat :=
  fun w => match rng w with
           | [] => (Ok 0, w)
           | r :: t => (Ok (r mod n), mkWorld (game w) (outbox w) t)
           end.

Fixpoint list_set {A} (i : nat) (a : A) (l : list A) : list A :=
  match l, i with
  | [], _ => []
  | _ :: l', 0 => a :: l'
  | x :: l', S i' => x :: list_set i' a l'
  end.

(** [x[i], x[j] = x[j], x[i]] *)
Definition swap {A} (i j : nat) (x : list A) : list A :=
  match nth_error x i, nth_error x j with
  | Some a, Some b => list_set j a (list_set i b x)
  | _, _ => x
  end.

(** The loop [for i in reversed(range(1, len(x)))], entered at [i]. *)
Fixpoint shuffle_from {A} (i : nat) (x : list A) : M (list A) :=
  match i with
  | 0 => ret x
  | S i' => j <- randbelow (S i) ;; shuffle_from i' (swap i j x)
  end.

Definition shuffle {A} (x : list A) : M (list A) :=
  shuffle_from (List.length x - 1) x.

(* ===================================================================== *)
(** ** Helper functions *)
(* ===================================================================== *)

(** [sorted(..., key=lambda x: x['score'], reverse=True)]: stable, so
    equal scores keep their order. *)
Fixpoint insert_by_score (p : Player.t) (l : list Player.t) : list Player.t :=
  match l with
  | [] => [p]
  | x :: l' =>
      if (Player.score x <=? Player.score p)%Z then p :: l
      else x :: insert_by_score p l'
  end.

Definition sorted_by_score (l : list Player.t) : list Player.t :=
  fold_right insert_by_score [] l.

Definition broadcast_state : M unit :=
  g <- get_game ;;
  view <-
    match state g with
    | LOBBY => ret (LobbyView "FAMILY")
    | BLUFF_INPUT =>
        q <- current_question ;;
        names <- foldM (fun acc sid =>
                          p <- player_at sid ;; ret (acc ++ [Player.name p]))
                       [] (Dict.keys (submissions g)) ;;
        ret (BluffInputView (Question.text q) names)
    | VOTING =>
        q <- current_question ;;
        opts <- get_current_options ;;
        ret (VotingView (Question.text q) opts)
    | REVEAL =>
        rs <- get_reveal_sequence ;;
        q <- current_question ;;
        ret (RevealView rs (Question.text q) (Question.answer q))
    | SCOREBOARD =>
        ret (ScoreboardView (sorted_by_score (Dict.values (players g))))
    end ;;
  emit ToAll (state_update
    (mkHostData (state g) (time_left g) (Dict.values (players g)) view)).

(** [start_timer].  The server runs with [async_mode='eventlet'], where the
    object that [start_background_task] returns has no [kill] method: once
    [game.timer_thread] holds a task, [game.timer_thread.kill()] raises
    [AttributeError], after [time_left] is assigned and before a new task is
    created.  Only the first call creates a task.  The countdown itself is
    [timer_tick] below. *)
Definition start_timer (duration : Z) (next_callback : Callback) : M unit :=
  modify (set_time_left duration) ;;
  g <- get_game ;;
  match timer_thread g with
  | Some _ => raise AttributeError
  | None => modify (set_timer_thread (Some (Running next_callback)))
  end.

(** The option entries in the order [transition_to_voting] appends them. *)
Definition truth_option (q : Question.t) : Opt.t :=
  Opt.mk (Question.answer q) Opt.TRUTH "HOUSE" None.

Definition lie_option (sid : Sid) (lie name : string) : Opt.t :=
  Opt.mk lie Opt.LIE name (Some sid).

Definition house_option (lie : string) : Opt.t :=
  Opt.mk lie Opt.HOUSE_LIE "HOUSE" None.

Definition transition_to_voting : M unit :=
  modify (set_state VOTING) ;;
  q <- current_question ;;
  modify (set_house_lies_active (Question.house_lies q)) ;;
  g <- get_game ;;
  options <- foldM (fun acc '(sid, lie) =>
                      p <- player_at sid ;;
                      ret (acc ++ [lie_option sid lie (Player.name p)]))
                   [truth_option q] (Dict.items (submissions g)) ;;
  let options := options ++ map house_option (house_lies_active g) in
  options <- shuffle options ;;
  modify (set_current_options (Some options)) ;;
  broadcast_state ;;
  start_timer 30 auto_advance_voting_cb.

(** The inner loop of the first pass: the voters of one option, awarding
    the author of a player lie as it goes. *)
Definition reveal_option_votes (option : Opt.t) : M (list string) :=
  g <- get_game ;;
  foldM (fun voters '(vid, vote_text) =>
           if String.eqb vote_text (Opt.text option) then
             p <- player_at vid ;;
             let voters := voters ++ [Player.name p] in
             match Opt.type option with
             | Opt.LIE =>
                 match Opt.sid option with
                 | Some author_sid =>
                     if negb (String.eqb vid author_sid)
                     then add_score author_sid 500
                     else ret tt
                 | None => raise KeyError
                 end
             | _ => ret tt
             end ;;
             ret voters
           else ret voters)
        [] (Dict.items (votes g)).

Definition transition_to_reveal : M unit :=
  modify (set_state REVEAL) ;;
  q <- current_question ;;
  options <- get_current_options ;;
  reveal_events <-
    foldM (fun reveal_events option =>
             match Opt.type option with
             | Opt.TRUTH => ret reveal_events
             | _ =>
                 voters <- reveal_option_votes option ;;
                 ret (reveal_events ++
                      [Reveal.mk Reveal.LIE (Opt.text option)
                                 (Opt.author option) voters])
             end)
          [] options ;;
  let truth_text := Question.answer q in
  g <- get_game ;;
  truth_voters <-
    foldM (fun truth_voters '(vid, vote_text) =>
             if String.eqb vote_text truth_text then
               p <- player_at vid ;;
               add_score vid 1000 ;;
               ret (truth_voters ++ [Player.name p])
             else ret truth_voters)
          [] (Dict.items (votes g)) ;;
  let reveal_events :=
    reveal_events ++ [Reveal.mk Reveal.TRUTH truth_text "THE TRUTH" truth_voters] in
  modify (set_reveal_sequence (Some reveal_events)) ;;
  broadcast_state.

Definition auto_advance_input : M unit :=
  g <- get_game ;;
  forM_ (Dict.items (players g)) (fun '(sid, p) =>
    g' <- get_game ;;
    if negb (Dict.mem sid (submissions g')) && Player.connected p
    then modify (fun g => set_submissions
                   (Dict.set sid (String.append (Player.name p) " fell asleep")
                             (submissions g)) g)
    else ret tt) ;;
  transition_to_voting.

Definition auto_advance_voting : M unit := transition_to_reveal.

Definition run_callback (cb : Callback) : M unit :=
  match cb with
  | auto_advance_input_cb => auto_advance_input
  | auto_advance_voting_cb => auto_advance_voting
  end.

(** One wake-up of [timer_loop] after its [socketio.sleep(1)]: decrement,
    emit, and when the count is no longer positive leave the loop and
    call the callback.  The loop reads the shared [game.time_left], so a
    later [start_timer] that assigns it re-arms the running task even when
    it raises.  A task that has left its loop never wakes up again, while
    [game.timer_thread] goes on holding it.  Without a running task
    nothing happens. *)
Definition timer_tick : M unit :=
  g <- get_game ;;
  match timer_thread g with
  | Some (Running next_callback) =>
      modify (fun g => set_time_left (time_left g - 1) g) ;;
      g' <- get_game ;;
      emit ToAll (timer_update (time_left g')) ;;
      if (0 <? time_left g')%Z then ret tt
      else modify (set_timer_thread (Some (Ended next_callback))) ;;
           run_callback next_callback
  | _ => ret tt
  end.

(* ===================================================================== *)
(** ** Socket events *)
(* ===================================================================== *)

Definition connect (sid : Sid) : M unit :=
  emit (ToSid sid) (connected sid).

Definition host_login (sid : Sid) : M unit :=
  g <- get_game ;;
  emit (ToSid sid) (host_state_update (state g) (questions g)).

Definition join_game (sid : Sid) (name : string) : M unit :=
  modify (add_player sid name) ;;
  broadcast_state ;;
  emit (ToSid sid) (joined_success name).

Definition add_question (q a : string) (hl : list string) : M unit :=
  let hl := filter (fun l => PyStr.truthy (PyStr.strip l)) hl in
  let new_q := Question.mk q a hl in
  modify (fun g => set_questions (questions g ++ [new_q]) g) ;;
  emit ToAll (question_added new_q).

Definition start_game_event : M unit :=
  g <- get_game ;;
  match questions g with
  | [] => ret tt
  | _ =>
      modify (set_state BLUFF_INPUT) ;;
      modify (set_current_question_index 0) ;;
      modify reset_round_data ;;
      broadcast_state ;;
      start_timer 60 auto_advance_input_cb
  end.

(** The comparison [lie.lower().strip() == current_q.answer.lower().strip()] *)
Definition matches_truth (lie answer : string) : bool :=
  String.eqb (PyStr.strip (PyStr.lower lie)) (PyStr.strip (PyStr.lower answer)).

Definition active_players (g : GameState) : list Player.t :=
  map snd (filter (fun '(sid, p) => Player.connected p) (Dict.items (players g))).

Definition submit_lie (sid : Sid) (lie : string) : M unit :=
  current_q <- current_question ;;
  if matches_truth lie (Question.answer current_q) then
    emit (ToSid sid) (error "Too close to the Truth! Try again.")
  else
    modify (fun g => set_submissions (Dict.set sid lie (submissions g)) g) ;;
    emit (ToSid sid) submitted_success ;;
    broadcast_state ;;
    g <- get_game ;;
    if (List.length (active_players g) <=? Dict.len (submissions g))%nat
    then transition_to_voting
    else ret tt.

Definition submit_vote (sid : Sid) (vote : string) : M unit :=
  modify (fun g => set_votes (Dict.set sid vote (votes g)) g) ;;
  emit (ToSid sid) voted_success ;;
  g <- get_game ;;
  if (List.length (active_players g) <=? Dict.len (votes g))%nat
  then transition_to_reveal
  else ret tt.

Definition next_round_event : M unit :=
  g <- get_game ;;
  let '(g1, more) := next_round g in
  modify (fun _ => g1) ;;
  if more then
    modify (set_state BLUFF_INPUT) ;;
    modify reset_round_data ;;
    broadcast_state ;;
    start_timer 60 auto_advance_input_cb
  else
    modify (set_state SCOREBOARD) ;;
    broadcast_state.

(** *** The event loop *)

Inductive Event :=
| EConnect (sid : Sid)
| EHostLogin (sid : Sid)
| EJoinGame (sid : Sid) (name : string)
| EAddQuestion (q a : string) (hl : list string)
| EStartGame
| ESubmitLie (sid : Sid) (lie : string)
| ESubmitVote (sid : Sid) (vote : string)
| ENextRound
| ETimerTick.

Definition handle (e : Event) : M unit :=
  match e with
  | EConnect sid => connect sid
  | EHostLogin sid => host_login sid
  | EJoinGame sid name => join_game sid name
  | EAddQuestion q a hl => add_question q a hl
  | EStartGame => start_game_event
  | ESubmitLie sid lie => submit_lie sid lie
  | ESubmitVote sid vote => submit_vote sid vote
  | ENextRound => next_round_event
  | ETimerTick => timer_tick
  end.

(** An exception ends the handler that raised it; the server goes on
    with the state as that handler left it. *)
Fixpoint run (es : list Event) (w : World) : World :=
  match es with
  | [] => w
  | e :: es' => run es' (snd (handle e w))
  end.

Definition world0 (tape : list nat) : World := mkWorld init [] tape.

(* ===================================================================== *)
(** ** Vocabulary of the properties *)
(* ===================================================================== *)

(** *** The monad: running and framing *)

(** [keeps f c]: whatever [c] does, and however it ends, the field [f] of
    the game is as before. *)
Definition keeps {X A} (f : GameState -> X) (c : M A) : Prop :=
  forall w, f (game (snd (c w))) = f (game w).

(** *** The outcome of start_timer *)

(** How [start_timer] ends: it returns when no task was ever created, and
    raises at [kill()] otherwise. *)
Definition timer_result (g : GameState) : Res unit :=
  match timer_thread g with
  | None => Ok tt
  | Some _ => Raise AttributeError
  end.

(** The task that [game.timer_thread] holds after [start_timer] was called
    with the callback [cb]: a new one only if there was none. *)
Definition timer_after (cb : Callback) (g : GameState) : option Task :=
  match timer_thread g with
  | None => Some (Running cb)
  | Some t => Some t
  end.

(** *** A game used for concrete runs *)

(** Two players, two questions; the first question is the one of the
    specification's scenario.  The round is played up to VOTING, then up
    to REVEAL by vote quorum. *)
Definition demo_setup : list Event :=
  [ EJoinGame "s1" "P1"; EJoinGame "s2" "P2";
    EAddQuestion "Capital of France?" "Paris" ["Lyon"; "  "; ""];
    EAddQuestion "Largest planet?" "Jupiter" [];
    EStartGame ].

Definition demo_bluff : World := run demo_setup (world0 [5; 1; 2; 7]).

Definition demo_voting : World :=
  run [ ESubmitLie "s1" "Berlin"; ESubmitLie "s2" "paris ";
        ESubmitLie "s2" "Madrid" ] demo_bluff.

Definition demo_reveal : World :=
  run [ ESubmitVote "s1" "Madrid"; ESubmitVote "s2" "Paris" ] demo_voting.

Definition demo_scoreboard : World := run [ENextRound; ENextRound] demo_reveal.

Definition score_of (sid : Sid) (g : GameState) : Z :=
  match Dict.get sid (players g) with
  | Some p => Player.score p
  | None => 0
  end.

(** *** Round data at the start of BLUFF_INPUT *)

(** A server with one question and no timer started yet. *)
Definition fresh_bank : World :=
  run [ EAddQuestion "Capital of France?" "Paris" ["Lyon"] ] (world0 []).

(** The two events that begin a BLUFF_INPUT phase, with the guard under
    which they do. *)
Definition begins_bluff_input (e : Event) (g : GameState) : bool :=
  match e with
  | EStartGame => match questions g with [] => false | _ => true end
  | ENextRound =>
      (current_question_index g + 1 <? List.length (questions g))%nat
  | _ => false
  end.

(** An attribute that was never assigned counts as empty here. *)
Definition unset_or_empty {A} (x : option (list A)) : Prop :=
  match x with None => True | Some l => l = [] end.

(** The specification's wording: all four round collections are empty. *)
Definition round_collections_empty (g : GameState) : Prop :=
  submissions g = Dict.empty /\ votes g = Dict.empty /\
  unset_or_empty (current_options g) /\ unset_or_empty (reveal_sequence g).

(** *** Submissions and votes outside their phase *)

(** The specification's wording: outside its phase the event changes
    nothing and raises nothing. *)
Definition out_of_phase_ignored : Prop :=
  forall (w : World) (sid : Sid) (s : string),
    (state (game w) <> BLUFF_INPUT ->
     exists w', submit_lie sid s w = (Ok tt, w') /\ game w' = game w) /\
    (state (game w) <> VOTING ->
     exists w', submit_vote sid s w = (Ok tt, w') /\ game w' = game w).

(** *** The state broadcast during VOTING *)

(** Does a message disclose which option is what?  A VOTING view does as
    soon as it lists an option: every entry carries ['type'] and
    ['author'], and player lies their ['sid']. *)
Definition discloses_kinds (m : Message) : bool :=
  match m with
  | state_update d =>
      match hd_view d with
      | VotingView _ (_ :: _) => true
      | _ => false
      end
  | _ => false
  end.

Definition names_truth (m : Message) : bool :=
  match m with
  | state_update d =>
      match hd_view d with
      | VotingView _ opts =>
          existsb (fun o => Opt.kind_eqb (Opt.type o) Opt.TRUTH) opts
      | _ => false
      end
  | _ => false
  end.

(** *** The VOTING timer after a vote quorum *)

(** The demo game one second before its timer runs out. *)
Definition demo_last_second : World := run (repeat ETimerTick 29) demo_reveal.

(** A game that is never started: the lies are sent during LOBBY, so the
    timer of the VOTING phase is the first one of the server.  The round
    is played up to REVEAL by vote quorum. *)
Definition lobby_reveal : World :=
  run [ EJoinGame "s1" "P1"; EJoinGame "s2" "P2";
        EAddQuestion "Capital of France?" "Paris" ["Lyon"];
        ESubmitLie "s1" "Berlin"; ESubmitLie "s2" "Madrid";
        ESubmitVote "s1" "Madrid"; ESubmitVote "s2" "Paris" ]
      (world0 [5; 1; 2; 7]).

Definition lobby_last_second : World := run (repeat ETimerTick 29) lobby_reveal.

(** *** Entering VOTING *)

Definition name_of (ps : Dict.t Player.t) (sid : Sid) : string :=
  match Dict.get sid ps with
  | Some p => Player.name p
  | None => ""
  end.

(** Every key of [d] is the id of a player who joined. *)
Definition joined {V} (ps : Dict.t Player.t) (d : Dict.t V) : Prop :=
  forall k, In k (Dict.keys d) -> Dict.mem k ps = true.

(** The options in the order they are appended, before the shuffle. *)
Definition built_options (q : Question.t) (g : GameState) : list Opt.t :=
  (truth_option q ::
   map (fun '(sid, lie) => lie_option sid lie (name_of (players g) sid))
       (Dict.items (submissions g)))
  ++ map house_option (Question.house_lies q).

Definition voting_game (q : Question.t) (opts : list Opt.t) (g : GameState)
  : GameState :=
  set_timer_thread (timer_after auto_advance_voting_cb g)
    (set_time_left 30
       (set_current_options (Some opts)
          (set_house_lies_active (Question.house_lies q)
             (set_state VOTING g)))).

Definition recorded_lie (sid : Sid) (lie : string) (w : World) : World :=
  let g1 := set_submissions (Dict.set sid lie (submissions (game w))) (game w) in
  mkWorld g1
    (outbox w ++
     [ mkEmit (ToSid sid) submitted_success;
       mkEmit ToAll
         (state_update
            (mkHostData BLUFF_INPUT (time_left g1) (Dict.values (players g1))
               (BluffInputView
                  (match nth_error (questions g1) (current_question_index g1) with
                   | Some q => Question.text q
                   | None => ""
                   end)
                  (map (name_of (players g1)) (Dict.keys (submissions g1)))))) ])
    (rng w).




(** *** The question bank *)

(** A decoy that is neither empty nor made of whitespace only. *)
Definition nonblank (l : string) : bool :=
  negb (String.eqb (PyStr.strip l) "").

Definition bank_filtered (qs : list Question.t) : Prop :=
  Forall (fun q => Forall (fun l => nonblank l = true) (Question.house_lies q)) qs.






(** The demo game just started; a session that never joined sends a lie,
    then P1 sends one. *)
Definition stranger_bluff : World :=
  run [ ESubmitLie "x9" "Rome"; ESubmitLie "s1" "Berlin" ] demo_bluff.


(** *** The truth check of submit_lie *)

Definition too_close : string := "Too close to the Truth! Try again.".

Definition rejected_lie (sid : Sid) (w : World) : World :=
  mkWorld (game w) (outbox w ++ [mkEmit (ToSid sid) (error too_close)]) (rng w).

(** A second game: the truth of the question is, but for its case, what
    the input timer records for a player who sent nothing. *)
Definition sleepy_bluff : World :=
  run [ EJoinGame "s1" "P1"; EJoinGame "s2" "P2";
        EAddQuestion "What did P1 do?" "p1 FELL asleep" ["Lyon"];
        EStartGame ] (world0 [5; 1; 2; 7]).

Definition option_texts (g : GameState) : list string :=
  match current_options g with
  | Some opts => map Opt.text opts
  | None => []
  end.

Definition demo_one_lie : World := run [ ESubmitLie "s1" "Berlin" ] demo_bluff.

(** *** The submission quorum *)

(** Every connected player has a recorded submission. *)
Definition every_connected_submitted (ps : Dict.t Player.t) (subs : Dict.t string)
  : Prop :=
  forall k p, Dict.get k ps = Some p -> Player.connected p = true ->
              Dict.mem k subs = true.

Definition connected_ids (ps : Dict.t Player.t) : list Sid :=
  map fst (filter (fun '(sid, p) => Player.connected p) (Dict.items ps)).


(** *** The scoring pass *)

Definition score (ps : Dict.t Player.t) (k : Sid) : Z :=
  match Dict.get k ps with
  | Some p => Player.score p
  | None => 0
  end.

(** [players[a]['score'] += n], for a player [a] of the table. *)
Definition award (a : Sid) (n : Z) (ps : Dict.t Player.t) : Dict.t Player.t :=
  match Dict.get a ps with
  | Some p => Dict.set a (Player.add_score n p) ps
  | None => ps
  end.

Definition with_players (ps : Dict.t Player.t) (w : World) : World :=
  mkWorld (set_players ps (game w)) (outbox w) (rng w).

(** One vote against one non-truth option. *)
Definition lie_vote_step (o : Opt.t)
  (acc : Dict.t Player.t * list string) (v : Sid * string)
  : Dict.t Player.t * list string :=
  let '(ps, voters) := acc in
  let '(vid, vote_text) := v in
  if String.eqb vote_text (Opt.text o) then
    (match Opt.type o, Opt.sid o with
     | Opt.LIE, Some author_sid =>
         if negb (String.eqb vid author_sid) then award author_sid 500 ps else ps
     | _, _ => ps
     end,
     voters ++ [name_of ps vid])
  else (ps, voters).

(** One option of the first pass. *)
Definition lie_option_step (vs : Dict.t string)
  (acc : Dict.t Player.t * list Reveal.t) (o : Opt.t)
  : Dict.t Player.t * list Reveal.t :=
  let '(ps, events) := acc in
  match Opt.type o with
  | Opt.TRUTH => (ps, events)
  | _ =>
      let '(ps', voters) := fold_left (lie_vote_step o) vs (ps, []) in
      (ps', events ++ [Reveal.mk Reveal.LIE (Opt.text o) (Opt.author o) voters])
  end.

(** One vote of the second pass. *)
Definition truth_vote_step (truth_text : string)
  (acc : Dict.t Player.t * list string) (v : Sid * string)
  : Dict.t Player.t * list string :=
  let '(ps, voters) := acc in
  let '(vid, vote_text) := v in
  if String.eqb vote_text truth_text
  then (award vid 1000 ps, voters ++ [name_of ps vid])
  else (ps, voters).

(** The options of player lies name players of the table. *)
Definition authors_joined (ps : Dict.t Player.t) (opts : list Opt.t) : Prop :=
  forall o, In o opts -> Opt.type o = Opt.LIE ->
            exists a, Opt.sid o = Some a /\ Dict.mem a ps = true.

(** The body of the inner loop of the first pass, as in
    [reveal_option_votes]. *)
Definition reveal_vote_body (option : Opt.t) (voters : list string)
  (v : Sid * string) : M (list string) :=
  let '(vid, vote_text) := v in
  if String.eqb vote_text (Opt.text option) then
    p <- player_at vid ;;
    let voters := voters ++ [Player.name p] in
    match Opt.type option with
    | Opt.LIE =>
        match Opt.sid option with
        | Some author_sid =>
            if negb (String.eqb vid author_sid)
            then add_score author_sid 500
            else ret tt
        | None => raise KeyError
        end
    | _ => ret tt
    end ;;
    ret voters
  else ret voters.

(** The body of the first pass, as in [transition_to_reveal]. *)
Definition reveal_option_body (reveal_events : list Reveal.t) (option : Opt.t)
  : M (list Reveal.t) :=
  match Opt.type option with
  | Opt.TRUTH => ret reveal_events
  | _ =>
      voters <- reveal_option_votes option ;;
      ret (reveal_events ++
           [Reveal.mk Reveal.LIE (Opt.text option) (Opt.author option) voters])
  end.

(** The body of the second pass. *)
Definition truth_vote_body (truth_text : string) (truth_voters : list string)
  (v : Sid * string) : M (list string) :=
  let '(vid, vote_text) := v in
  if String.eqb vote_text truth_text then
    p <- player_at vid ;;
    add_score vid 1000 ;;
    ret (truth_voters ++ [Player.name p])
  else ret truth_voters.

(** The player table after the two passes. *)
Definition scored_players (truth_text : string) (opts : list Opt.t)
  (vs : Dict.t string) (ps : Dict.t Player.t) : Dict.t Player.t :=
  fst (fold_left (truth_vote_step truth_text) vs
         (fst (fold_left (lie_option_step vs) opts (ps, [])), [])).

(** What one vote earns player [k] through one option, in the words of
    the specification: a vote for the text of the TRUTH option earns its
    voter 1000; a vote for the text of a PLAYER_LIE option earns the
    author of the option 500 unless the voter is that author, and earns
    the voter nothing; a vote for the text of a HOUSE_LIE option earns
    nothing. *)
Definition vote_award (o : Opt.t) (voter : Sid) (vote_text : string) (k : Sid) : Z :=
  if String.eqb vote_text (Opt.text o) then
    match Opt.type o with
    | Opt.TRUTH => if String.eqb k voter then 1000 else 0
    | Opt.LIE =>
        match Opt.sid o with
        | Some author =>
            if negb (String.eqb voter author) && String.eqb k author
            then 500 else 0
        | None => 0
        end
    | Opt.HOUSE_LIE => 0
    end
  else 0.

Definition sumZ {A} (f : A -> Z) (l : list A) : Z :=
  fold_right (fun a acc => (f a + acc)%Z) 0%Z l.

(** All that the votes earn player [k] through the options. *)
Definition total_award (opts : list Opt.t) (vs : Dict.t string) (k : Sid) : Z :=
  sumZ (fun o => sumZ (fun v => vote_award o (fst v) (snd v) k) vs) opts.

Definition is_truth (o : Opt.t) : bool := Opt.kind_eqb (Opt.type o) Opt.TRUTH.

Definition truth_award (truth_text : string) (k : Sid) (v : Sid * string) : Z :=
  if String.eqb (snd v) truth_text
  then (if String.eqb k (fst v) then 1000 else 0)
  else 0.

(** All that one run of the pass gives player [k]: the votes are compared
    with the text of every option but the TRUTH one, and with the answer
    of the current question. *)
Definition pass_award (answer : string) (opts : list Opt.t) (vs : Dict.t string)
  (k : Sid) : Z :=
  (sumZ (fun o => if is_truth o then 0
                  else sumZ (fun v => vote_award o (fst v) (snd v) k) vs) opts
   + sumZ (truth_award answer k) vs)%Z.

(** The specification's wording: a run of the pass that finds a current
    question, stored options, and voters and authors among the players
    gives every player what the law gives over the stored options. *)
Definition scoring_as_specified : Prop :=
  forall (w : World) (q : Question.t) (opts : list Opt.t),
    nth_error (questions (game w)) (current_question_index (game w)) = Some q ->
    current_options (game w) = Some opts ->
    joined (players (game w)) (votes (game w)) ->
    authors_joined (players (game w)) opts ->
    forall k,
      score_of k (game (snd (transition_to_reveal w)))
      = (score_of k (game w) + total_award opts (votes (game w)) k)%Z.

(** The votes of the specification's scenario, recorded and not yet
    revealed. *)
Definition demo_voted : World :=
  mkWorld (set_votes [("s1", "Madrid"); ("s2", "Paris")] (game demo_voting))
          (outbox demo_voting) (rng demo_voting).

(** The demo game in VOTING; the host asks for the next round, which keeps
    the stored options of the first question, and P1 votes for the text of
    their TRUTH option. *)
Definition stale_round : World :=
  run [ ENextRound; ESubmitVote "s1" "Paris" ] demo_voting.

(** The same game inside the handler of P2's vote for that text, when it
    goes on to the pass. *)
Definition stale_voted : World :=
  mkWorld (set_votes (Dict.set "s2" "Paris" (votes (game stale_round)))
                     (game stale_round))
          (outbox stale_round ++ [mkEmit (ToSid "s2") voted_success])
          (rng stale_round).

(** *** Invariants across events *)

(** [steps R c]: however [c] ends, the game it leaves is [R]-related to
    the game it started from. *)
Definition steps {A} (R : GameState -> GameState -> Prop) (c : M A) : Prop :=
  forall w, R (game w) (game (snd (c w))).

(** The same players in the same order, each with the same name and
    connection flag and a score no lower. *)
Definition record_kept (g g' : GameState) : Prop :=
  Dict.keys (players g') = Dict.keys (players g) /\
  forall k p, Dict.get k (players g) = Some p ->
    exists p', Dict.get k (players g') = Some p' /\
               Player.name p' = Player.name p /\
               Player.connected p' = Player.connected p /\
               (Player.score p <= Player.score p')%Z.

Definition is_join (e : Event) : bool :=
  match e with EJoinGame _ _ => true | _ => false end.

(** The phase does not turn into BLUFF_INPUT, and the question index and
    the bank are as before. *)
Definition round_kept (g g' : GameState) : Prop :=
  (state g' = BLUFF_INPUT -> state g = BLUFF_INPUT) /\
  current_question_index g' = current_question_index g /\
  questions g' = questions g.

(** In BLUFF_INPUT there is a current question. *)
Definition bluff_has_question (g : GameState) : Prop :=
  state g = BLUFF_INPUT ->
  (current_question_index g < List.length (questions g))%nat.

(** The game [start_game] leaves when the bank is not empty. *)
Definition started_game (g : GameState) : GameState :=
  set_timer_thread (timer_after auto_advance_input_cb g)
    (set_time_left 60
       (reset_round_data
          (set_current_question_index 0 (set_state BLUFF_INPUT g)))).

(** The game [next_round] leaves. *)
Definition advanced_game (g : GameState) : GameState :=
  let g1 := set_current_question_index (current_question_index g + 1) g in
  if (current_question_index g + 1 <? List.length (questions g))%nat
  then set_timer_thread (timer_after auto_advance_input_cb g)
         (set_time_left 60 (reset_round_data (set_state BLUFF_INPUT g1)))
  else set_state SCOREBOARD g1.

(** *** Timers and disconnection *)

(** The countdown messages of the first [n] ticks of a timer that
    stands at [t]. *)
Definition countdown (t : Z) (n : nat) : list Emit :=
  map (fun i => mkEmit ToAll (timer_update (t - Z.of_nat i))) (seq 1 n).



(** *** The reveal sequence *)

(** The names of those whose vote is [text], in the order they voted. *)
Definition voters_of (ps : Dict.t Player.t) (vs : Dict.t string) (text : string)
  : list string :=
  map (fun v => name_of ps (fst v))
      (filter (fun v => String.eqb (snd v) text) vs).

(** The sequence as the source describes it: the options but the truth,
    in their stored order, each as a ['LIE'] entry with its voters; the
    truth last. *)
Definition expected_reveal (truth_text : string) (opts : list Opt.t)
  (vs : Dict.t string) (ps : Dict.t Player.t) : list Reveal.t :=
  map (fun o => Reveal.mk Reveal.LIE (Opt.text o) (Opt.author o)
                          (voters_of ps vs (Opt.text o)))
      (filter (fun o => negb (is_truth o)) opts)
  ++ [Reveal.mk Reveal.TRUTH truth_text "THE TRUTH" (voters_of ps vs truth_text)].

(** *** The leaderboard and the vote quorum *)

(** [a] does not stand below [b]. *)
Definition by_score_desc (a b : Player.t) : Prop :=
  (Player.score b <= Player.score a)%Z.

Definition has_score (s : Z) (p : Player.t) : bool :=
  (Player.score p =? s)%Z.

Definition recorded_vote (sid : Sid) (vote : string) (w : World) : World :=
  mkWorld (set_votes (Dict.set sid vote (votes (game w))) (game w))
          (outbox w ++ [mkEmit (ToSid sid) voted_success]) (rng w).

(** *** What an event may write *)

(** The loop body of a running timer with completion action [cb]. *)
Definition tick_body (cb : Callback) : M unit :=
  modify (fun g => set_time_left (time_left g - 1) g) ;;
  g' <- get_game ;;
  emit ToAll (timer_update (time_left g')) ;;
  if (0 <? time_left g')%Z then ret tt
  else modify (set_timer_thread (Some (Ended cb))) ;; run_callback cb.

(** The running timer is the one with completion action [cb]. *)
Definition timer_is (cb : Callback) (g : GameState) : bool :=
  match timer_thread g, cb with
  | Some (Running auto_advance_input_cb), auto_advance_input_cb => true
  | Some (Running auto_advance_voting_cb), auto_advance_voting_cb => true
  | _, _ => false
  end.

Definition writes_players (e : Event) (g : GameState) : bool :=
  match e with
  | EJoinGame _ _ | ESubmitVote _ _ => true
  | ETimerTick => timer_is auto_advance_voting_cb g
  | _ => false
  end.

Definition writes_submissions (e : Event) (g : GameState) : bool :=
  match e with
  | ESubmitLie _ _ | EStartGame | ENextRound => true
  | ETimerTick => timer_is auto_advance_input_cb g
  | _ => false
  end.

Definition writes_votes (e : Event) (g : GameState) : bool :=
  match e with
  | ESubmitVote _ _ | EStartGame | ENextRound => true
  | _ => false
  end.

Definition writes_options (e : Event) (g : GameState) : bool :=
  match e with
  | ESubmitLie _ _ => true
  | ETimerTick => timer_is auto_advance_input_cb g
  | _ => false
  end.

Definition writes_reveal (e : Event) (g : GameState) : bool :=
  match e with
  | ESubmitVote _ _ => true
  | ETimerTick => timer_is auto_advance_voting_cb g
  | _ => false
  end.

(** *** The stored options *)

(** The stored option list, if there is one, has a single TRUTH option,
    and its player lies name players of the table. *)
Definition options_ok (g : GameState) : Prop :=
  forall opts, current_options g = Some opts ->
    authors_joined (players g) opts /\
    List.length (filter is_truth opts) = 1%nat.

(** No player leaves, and the stored options are kept or replaced by a
    well-formed list. *)
Definition options_step (g g' : GameState) : Prop :=
  (forall k, Dict.mem k (players g) = true -> Dict.mem k (players g') = true) /\
  (current_options g' = current_options g \/ options_ok g').

(** *** The truth check *)

Definition all_space (s : string) : Prop :=
  forall c, In c (list_ascii_of_string s) -> PyStr.isspace c = true.

(** *** The broadcast *)

Definition has_question (g : GameState) : bool :=
  (current_question_index g <? List.length (questions g))%nat.

(** The exception [broadcast_state] ends with, if any, by phase. *)
Definition broadcast_error (g : GameState) : option Exn :=
  match state g with
  | LOBBY | SCOREBOARD => None
  | BLUFF_INPUT =>
      if negb (has_question g) then Some IndexError
      else if forallb (fun k => Dict.mem k (players g)) (Dict.keys (submissions g))
           then None else Some KeyError
  | VOTING =>
      if negb (has_question g) then Some IndexError
      else match current_options g with
           | Some _ => None
           | None => Some AttributeError
           end
  | REVEAL =>
      match reveal_sequence g with
      | None => Some AttributeError
      | Some _ => if has_question g then None else Some IndexError
      end
  end.

(* ===================================================================== *)
(** ** Dictionaries: basic facts *)
(* ===================================================================== *)

Section DictFacts.
Context {V : Type}.
Implicit Types (d : Dict.t V) (k : Sid) (v : V).

Lemma get_set_eq k v d : Dict.get k (Dict.set k v d) = Some v.
Proof.
  induction d as [|[k' v'] d IH]; simpl.
  - now rewrite String.eqb_refl.
  - destruct (String.eqb k k') eqn:E; simpl.
    + now rewrite String.eqb_refl.
    + now rewrite E.
Qed.

Lemma get_set_neq k k' v d :
  k' <> k -> Dict.get k' (Dict.set k v d) = Dict.get k' d.
Proof.
  intros Hne. induction d as [|[k0 v0] d IH]; simpl.
  - destruct (String.eqb_spec k' k); congruence.
  - destruct (String.eqb_spec k k0) as [->|Hk]; simpl.
    + destruct (String.eqb_spec k' k0); congruence.
    + destruct (String.eqb_spec k' k0); congruence.
Qed.

Lemma get_Some_In k v d : Dict.get k d = Some v -> In (k, v) d.
Proof.
  induction d as [|[k' v'] d IH]; simpl; [discriminate|].
  destruct (String.eqb_spec k k') as [->|Hk].
  - intros [= ->]. now left.
  - intros H. right. auto.
Qed.

Lemma get_None_keys k d : Dict.get k d = None <-> ~ In k (Dict.keys d).
Proof.
  induction d as [|[k' v'] d IH]; simpl.
  - tauto.
  - destruct (String.eqb_spec k k') as [->|Hk].
    + split; [discriminate | intros H; exfalso; apply H; now left].
    + rewrite IH. split; intros H; [intros [E|E]; [congruence|tauto] | tauto].
Qed.

Lemma mem_keys k d : Dict.mem k d = true <-> In k (Dict.keys d).
Proof.
  unfold Dict.mem. destruct (Dict.get k d) eqn:E.
  - split; [intros _|reflexivity].
    apply get_Some_In in E. apply (in_map fst) in E. exact E.
  - apply get_None_keys in E. split; [discriminate | tauto].
Qed.

Lemma keys_set_mem k v d :
  Dict.mem k d = true -> Dict.keys (Dict.set k v d) = Dict.keys d.
Proof.
  unfold Dict.mem, Dict.keys.
  induction d as [|[k' v'] d IH]; simpl; [discriminate|].
  destruct (String.eqb_spec k k') as [->|Hk]; simpl; [reflexivity|].
  intros H. now rewrite IH.
Qed.

Lemma keys_set_new k v d :
  Dict.mem k d = false -> Dict.keys (Dict.set k v d) = Dict.keys d ++ [k].
Proof.
  unfold Dict.mem, Dict.keys.
  induction d as [|[k' v'] d IH]; simpl; [reflexivity|].
  destruct (String.eqb_spec k k') as [->|Hk]; simpl; [discriminate|].
  intros H. now rewrite IH.
Qed.

Lemma in_keys_set k k' v d :
  In k' (Dict.keys (Dict.set k v d)) <-> k' = k \/ In k' (Dict.keys d).
Proof.
  destruct (Dict.mem k d) eqn:E.
  - rewrite keys_set_mem by exact E. apply mem_keys in E.
    split; [tauto | intros [->|H]; assumption].
  - rewrite keys_set_new by exact E. rewrite in_app_iff. simpl.
    split; [intros [H|[H|[]]]; auto | intros [H|H]; auto].
Qed.

Lemma NoDup_keys_set k v d :
  NoDup (Dict.keys d) -> NoDup (Dict.keys (Dict.set k v d)).
Proof.
  intros H. destruct (Dict.mem k d) eqn:E.
  - now rewrite keys_set_mem.
  - rewrite keys_set_new by exact E.
    apply NoDup_app; [exact H | constructor; [intros []|constructor] |].
    intros x Hx [<-|[]].
    apply mem_keys in Hx. congruence.
Qed.

Lemma get_In_NoDup k v d :
  NoDup (Dict.keys d) -> In (k, v) d -> Dict.get k d = Some v.
Proof.
  unfold Dict.keys.
  induction d as [|[k' v'] d IH]; simpl; [tauto|].
  intros Hnd [[= -> ->]|Hin].
  - now rewrite String.eqb_refl.
  - inversion Hnd as [|? ? Hni Hnd']; subst.
    destruct (String.eqb_spec k k') as [->|Hk]; [|auto].
    exfalso. apply Hni. apply (in_map fst) in Hin. exact Hin.
Qed.

End DictFacts.

(* ===================================================================== *)
(** ** The monad: running and framing *)
(* ===================================================================== *)

Lemma bind_Ok {A B} (c : M A) (k : A -> M B) w a w' :
  c w = (Ok a, w') -> bind c k w = k a w'.
Proof. unfold bind. now intros ->. Qed.

Lemma bind_Raise {A B} (c : M A) (k : A -> M B) w e w' :
  c w = (Raise e, w') -> bind c k w = (Raise e, w').
Proof. unfold bind. now intros ->. Qed.

(** Assigning to [timer_thread] the task it holds changes nothing. *)
Lemma set_timer_thread_kept (t : Task) (g : GameState) :
  timer_thread g = Some t -> set_timer_thread (Some t) g = g.
Proof. intros <-. destruct g; reflexivity. Qed.

Section Keeps.
Context {X : Type} (f : GameState -> X).

Lemma keeps_ret {A} (a : A) : keeps f (ret a).
Proof. intros w. reflexivity. Qed.

Lemma keeps_raise {A} e : keeps f (@raise A e).
Proof. intros w. reflexivity. Qed.

Lemma keeps_get_game : keeps f get_game.
Proof. intros w. reflexivity. Qed.

Lemma keeps_emit a m : keeps f (emit a m).
Proof. intros w. reflexivity. Qed.

Lemma keeps_randbelow n : keeps f (randbelow n).
Proof. intros w. unfold randbelow. now destruct (rng w). Qed.

Lemma keeps_modify h : (forall g, f (h g) = f g) -> keeps f (modify h).
Proof. intros H w. simpl. apply H. Qed.

Lemma keeps_bind {A B} (c : M A) (k : A -> M B) :
  keeps f c -> (forall a, keeps f (k a)) -> keeps f (bind c k).
Proof.
  intros Hc Hk w. unfold bind.
  specialize (Hc w). destruct (c w) as [[a|e] w1]; simpl in *.
  - now rewrite Hk.
  - exact Hc.
Qed.

Lemma keeps_foldM {A B} (h : B -> A -> M B) l :
  (forall b a, keeps f (h b a)) -> forall b, keeps f (foldM h b l).
Proof.
  intros H. induction l as [|a l IH]; intros b; simpl.
  - apply keeps_ret.
  - apply keeps_bind; [apply H | intros; apply IH].
Qed.

Lemma keeps_shuffle_from {A} i : forall (x : list A), keeps f (shuffle_from i x).
Proof.
  induction i as [|i IH]; intros x; simpl.
  - apply keeps_ret.
  - apply keeps_bind; [apply keeps_randbelow | intros; apply IH].
Qed.

Lemma keeps_shuffle {A} (x : list A) : keeps f (shuffle x).
Proof. apply keeps_shuffle_from. Qed.

End Keeps.

(** Framing by syntax: walk through a computation, leaving only the
    [modify] steps that would touch the field. *)
Ltac keeps_step :=
  match goal with
  | |- keeps _ (bind _ _) => apply keeps_bind; [|intros]
  | |- keeps _ (ret _) => apply keeps_ret
  | |- keeps _ (raise _) => apply keeps_raise
  | |- keeps _ get_game => apply keeps_get_game
  | |- keeps _ (emit _ _) => apply keeps_emit
  | |- keeps _ (shuffle _) => apply keeps_shuffle
  | |- keeps _ (foldM _ _ _) => apply keeps_foldM; intros
  | |- keeps _ (forM_ _ _) => apply keeps_foldM; intros
  | |- keeps _ (modify _) => apply keeps_modify; intros; reflexivity
  | |- keeps _ (match ?x with _ => _ end) => destruct x
  | |- keeps _ (if ?x then _ else _) => destruct x
  end.

Ltac keeps_tac := repeat keeps_step.


Lemma keeps_broadcast_state {X} (f : GameState -> X) : keeps f broadcast_state.
Proof. unfold broadcast_state, current_question, player_at,
         get_current_options, get_reveal_sequence. keeps_tac. Qed.

Lemma keeps_player_at {X} (f : GameState -> X) sid : keeps f (player_at sid).
Proof. unfold player_at. keeps_tac. Qed.

Lemma keeps_current_question {X} (f : GameState -> X) : keeps f current_question.
Proof. unfold current_question. keeps_tac. Qed.

Lemma keeps_get_current_options {X} (f : GameState -> X) :
  keeps f get_current_options.
Proof. unfold get_current_options. keeps_tac. Qed.

(** The reveal pass touches the phase, the scores and the reveal
    sequence, and nothing else; in particular not the votes, the options
    or the timer. *)
Lemma keeps_transition_to_reveal {X} (f : GameState -> X) :
  (forall v g, f (set_state v g) = f g) ->
  (forall v g, f (set_players v g) = f g) ->
  (forall v g, f (set_reveal_sequence v g) = f g) ->
  keeps f transition_to_reveal.
Proof.
  intros H1 H2 H3.
  unfold transition_to_reveal, reveal_option_votes, add_score.
  repeat first
    [ apply keeps_broadcast_state | apply keeps_player_at
    | apply keeps_current_question | apply keeps_get_current_options
    | apply keeps_modify; intros; first [apply H1 | apply H2 | apply H3]
    | keeps_step ].
Qed.

(** Entering VOTING touches the phase, the active house lies, the
    options and the timer, and nothing else. *)
Lemma keeps_transition_to_voting {X} (f : GameState -> X) :
  (forall v g, f (set_state v g) = f g) ->
  (forall v g, f (set_house_lies_active v g) = f g) ->
  (forall v g, f (set_current_options v g) = f g) ->
  (forall v g, f (set_time_left v g) = f g) ->
  (forall v g, f (set_timer_thread v g) = f g) ->
  keeps f transition_to_voting.
Proof.
  intros H1 H2 H3 H4 H5.
  unfold transition_to_voting, start_timer.
  repeat first
    [ apply keeps_broadcast_state | apply keeps_player_at
    | apply keeps_current_question
    | apply keeps_modify; intros;
      first [apply H1 | apply H2 | apply H3 | apply H4 | apply H5]
    | keeps_step ].
Qed.

(* ===================================================================== *)
(** ** submit_lie without a current question *)
(* ===================================================================== *)

(** C10. A [submit_lie] event that arrives while the question index is
    not below the length of the question bank (the bank is empty, or the
    game has run past its last question) raises [IndexError] at
    [game.questions[game.current_question_index]], before anything is
    recorded or emitted: it is neither a silent no-op nor an [error]
    message. *)
Theorem submit_lie_index_error (sid : Sid) (lie : string) (w : World) :
  (List.length (questions (game w)) <= current_question_index (game w))%nat ->
  submit_lie sid lie w = (Raise IndexError, w).
Proof.
  intros H. apply nth_error_None in H.
  unfold submit_lie. apply bind_Raise.
  unfold current_question, bind, get_game. now rewrite H.
Qed.

Lemma submit_lie_index_error_witness :
  state (game demo_scoreboard) = SCOREBOARD /\
  submit_lie "s1" "Berlin" demo_scoreboard = (Raise IndexError, demo_scoreboard) /\
  state (game (world0 [])) = LOBBY /\
  submit_lie "s1" "Berlin" (world0 []) = (Raise IndexError, world0 []).
Proof.
  split; [reflexivity|]. split.
  - apply (submit_lie_index_error "s1" "Berlin" demo_scoreboard).
    vm_compute. lia.
  - split; [reflexivity|].
    apply (submit_lie_index_error "s1" "Berlin" (world0 [])). simpl. lia.
Defined.

(* ===================================================================== *)
(** ** next_round *)
(* ===================================================================== *)

Ltac unfold_monad :=
  unfold bind, ret, raise, get_game, modify, emit in *.

(** Run the straight-line part of a computation, leaving comparisons and
    list look-ups as they are. *)
Ltac msimpl :=
  unfold_monad; cbn -[Nat.leb Nat.ltb nth_error Z.add Z.sub Z.ltb String.eqb] in *.

(** A conjunction of closed equations, each decided by evaluation. *)
Ltac vm_conj :=
  repeat match goal with |- _ /\ _ => split end; vm_compute; reflexivity.

(** C8. [next_round] increments the question index.  If the new index is
    within the bank, the round data is reset, the game enters BLUFF_INPUT
    and [time_left] is 60; otherwise the game enters SCOREBOARD.  So the
    game goes to BLUFF_INPUT iff [questionIndex + 1 < len(questionBank)],
    from every phase, REVEAL included.  The 60-second timer is created
    only when no timer was ever started: otherwise [start_timer] raises
    [AttributeError] at [game.timer_thread.kill()], the handler ends with
    it, and [game.timer_thread] holds the task it held, which is not a
    fresh one. *)
Theorem next_round_event_spec (w : World) :
  let g := game w in
  let idx' := (current_question_index g + 1)%nat in
  exists w',
    next_round_event w =
      (if (idx' <? List.length (questions g))%nat then timer_result g else Ok tt,
       w') /\
    current_question_index (game w') = idx' /\
    questions (game w') = questions g /\
    players (game w') = players g /\
    if (idx' <? List.length (questions g))%nat then
      state (game w') = BLUFF_INPUT /\
      submissions (game w') = Dict.empty /\
      votes (game w') = Dict.empty /\
      house_lies_active (game w') = [] /\
      time_left (game w') = 60%Z /\
      timer_thread (game w') = timer_after auto_advance_input_cb g
    else
      state (game w') = SCOREBOARD /\
      submissions (game w') = submissions g /\
      votes (game w') = votes g /\
      time_left (game w') = time_left g /\
      timer_thread (game w') = timer_thread g.
Proof.
  intros g idx'. subst g idx'.
  unfold next_round_event, next_round, broadcast_state, start_timer,
    current_question, timer_result, timer_after.
  msimpl.
  destruct (Nat.ltb_spec (current_question_index (game w) + 1)
                         (List.length (questions (game w)))) as [Hlt|Hge];
    destruct (Nat.leb_spec (List.length (questions (game w)))
                           (current_question_index (game w) + 1));
    try lia; msimpl.
  - destruct (nth_error (questions (game w)) (current_question_index (game w) + 1))
      as [q|] eqn:Hq; [|apply nth_error_None in Hq; lia].
    msimpl.
    destruct (timer_thread (game w)) eqn:Ht; msimpl;
      (eexists; split; [reflexivity | repeat split; msimpl; now rewrite ?Ht]).
  - eexists; split; [reflexivity | repeat split].
Qed.

(** In the demo game the host asks for the next round during REVEAL, while
    the timer of the first round is still running: the handler raises, and
    the only task is still that first one. *)
Lemma next_round_event_spec_witness :
  state (game demo_reveal) = REVEAL /\
  timer_thread (game demo_reveal) = Some (Running auto_advance_input_cb) /\
  exists w',
    next_round_event demo_reveal = (Raise AttributeError, w') /\
    state (game w') = BLUFF_INPUT /\
    time_left (game w') = 60%Z /\
    timer_thread (game w') = Some (Running auto_advance_input_cb).
Proof.
  split; [vm_compute; reflexivity|]. split; [vm_compute; reflexivity|].
  destruct (next_round_event_spec demo_reveal) as (w' & Hr & _ & _ & _ & H).
  exists w'.
  replace (current_question_index (game demo_reveal) + 1 <?
           List.length (questions (game demo_reveal)))%nat with true in *
    by (vm_compute; reflexivity).
  replace (timer_result (game demo_reveal)) with (@Raise unit AttributeError) in Hr
    by (vm_compute; reflexivity).
  replace (timer_after auto_advance_input_cb (game demo_reveal))
    with (Some (Running auto_advance_input_cb)) in H by (vm_compute; reflexivity).
  split; [exact Hr|].
  destruct H as (Hs & _ & _ & _ & Ht & Hh).
  split; [exact Hs|]. split; [exact Ht|]. exact Hh.
Defined.


(* ===================================================================== *)
(** ** Round data at the start of BLUFF_INPUT *)
(* ===================================================================== *)

(** C3, as stated, fails: [reset_round_data] clears the submissions, the
    votes and the active house lies only.  After [next_round] from the
    REVEAL of the first demo round, BLUFF_INPUT begins with the four
    options and the four reveal events of the round before. *)
Lemma bluff_input_entry_not_all_empty :
  state (game demo_reveal) = REVEAL /\
  begins_bluff_input ENextRound (game demo_reveal) = true /\
  exists w',
    handle ENextRound demo_reveal = (Raise AttributeError, w') /\
    state (game w') = BLUFF_INPUT /\
    option_map (@List.length _) (current_options (game w')) = Some 4%nat /\
    option_map (@List.length _) (reveal_sequence (game w')) = Some 4%nat /\
    ~ round_collections_empty (game w').
Proof.
  split; [reflexivity|]. split; [reflexivity|].
  eexists. split; [vm_compute; reflexivity|].
  split; [reflexivity|]. split; [reflexivity|]. split; [reflexivity|].
  intros (_ & _ & H & _). vm_compute in H. discriminate H.
Qed.

(** C3, amended.  When a BLUFF_INPUT phase begins ([start_game] with a
    non-empty bank, or [next_round] with a next question), the phase is
    BLUFF_INPUT and the submissions, the votes and the active house lies
    are empty; the options and the reveal sequence are not reset: they
    are what they were before the event.  The handler returns when it
    starts the first timer of the server, and ends with [AttributeError]
    from [start_timer] otherwise, with the game in that same state. *)
Theorem bluff_input_entry_resets (e : Event) (w : World) :
  begins_bluff_input e (game w) = true ->
  exists w',
    handle e w = (timer_result (game w), w') /\
    state (game w') = BLUFF_INPUT /\
    submissions (game w') = Dict.empty /\
    votes (game w') = Dict.empty /\
    house_lies_active (game w') = [] /\
    current_options (game w') = current_options (game w) /\
    reveal_sequence (game w') = reveal_sequence (game w).
Proof.
  destruct e; try discriminate; simpl begins_bluff_input; intros Hb.
  - (* start_game *)
    unfold handle, start_game_event, broadcast_state, start_timer,
      current_question, timer_result.
    msimpl. destruct (questions (game w)) as [|q qs] eqn:Hq; [discriminate|].
    msimpl. rewrite Hq. cbn [nth_error]. msimpl.
    destruct (timer_thread (game w)); msimpl;
      (eexists; split; [reflexivity | repeat split]).
  - (* next_round *)
    apply Nat.ltb_lt in Hb.
    unfold handle, next_round_event, next_round, broadcast_state, start_timer,
      current_question, timer_result.
    msimpl.
    destruct (Nat.leb_spec (List.length (questions (game w)))
                           (current_question_index (game w) + 1)); [lia|].
    msimpl.
    destruct (nth_error (questions (game w)) (current_question_index (game w) + 1))
      as [q|] eqn:Hq; [|apply nth_error_None in Hq; lia].
    msimpl.
    destruct (timer_thread (game w)); msimpl;
      (eexists; split; [reflexivity | repeat split]).
Qed.

(** The first round of the demo game starts the first timer and returns;
    the second round, asked for during REVEAL, raises. *)
Lemma bluff_input_entry_resets_witness :
  (exists w',
     handle EStartGame fresh_bank = (Ok tt, w') /\
     state (game w') = BLUFF_INPUT /\
     submissions (game w') = Dict.empty /\
     votes (game w') = Dict.empty /\
     house_lies_active (game w') = [] /\
     current_options (game w') = current_options (game fresh_bank) /\
     reveal_sequence (game w') = reveal_sequence (game fresh_bank)) /\
  (exists w',
     handle ENextRound demo_reveal = (Raise AttributeError, w') /\
     state (game w') = BLUFF_INPUT /\
     submissions (game w') = Dict.empty /\
     votes (game w') = Dict.empty /\
     house_lies_active (game w') = [] /\
     current_options (game w') = current_options (game demo_reveal) /\
     reveal_sequence (game w') = reveal_sequence (game demo_reveal)).
Proof.
  split.
  - replace (@Ok unit tt) with (timer_result (game fresh_bank))
      by (vm_compute; reflexivity).
    apply (bluff_input_entry_resets EStartGame fresh_bank).
    vm_compute; reflexivity.
  - replace (@Raise unit AttributeError) with (timer_result (game demo_reveal))
      by (vm_compute; reflexivity).
    apply (bluff_input_entry_resets ENextRound demo_reveal).
    vm_compute; reflexivity.
Defined.


(* ===================================================================== *)
(** ** Submissions and votes outside their phase *)
(* ===================================================================== *)

(** C2, as stated, fails: no handler looks at [game.state].  A vote sent
    during BLUFF_INPUT is recorded; a vote sent to a fresh server (LOBBY,
    no player, no question) is recorded, meets the quorum of zero
    players, sets the phase to REVEAL and raises [IndexError]; a lie sent
    during VOTING is recorded. *)
Lemma out_of_phase_not_ignored :
  ~ out_of_phase_ignored /\
  (state (game demo_bluff) = BLUFF_INPUT /\
   votes (game (snd (submit_vote "s1" "Paris" demo_bluff))) = [("s1", "Paris")]) /\
  (state (game (world0 [])) = LOBBY /\
   fst (submit_vote "s1" "Paris" (world0 [])) = Raise IndexError /\
   state (game (snd (submit_vote "s1" "Paris" (world0 [])))) = REVEAL) /\
  (state (game demo_voting) = VOTING /\
   Dict.get "s1" (submissions (game demo_voting)) = Some "Berlin" /\
   Dict.get "s1" (submissions (game (snd (submit_lie "s1" "Rome" demo_voting))))
   = Some "Rome").
Proof.
  split.
  - intros H. destruct (H demo_bluff "s1" "Paris") as [_ Hv].
    destruct Hv as (w' & Hrun & Hsame); [discriminate|].
    assert (E : votes (game (snd (submit_vote "s1" "Paris" demo_bluff)))
                = votes (game demo_bluff))
      by (rewrite Hrun; simpl; now rewrite Hsame).
    vm_compute in E. discriminate E.
  - vm_conj.
Qed.

(** The vote is stored first; nothing that follows touches the votes. *)
Lemma submit_vote_recorded (sid : Sid) (s : string) (w : World) :
  votes (game (snd (submit_vote sid s w))) = Dict.set sid s (votes (game w)).
Proof.
  unfold submit_vote.
  match goal with
  | |- context [bind (modify ?f) ?k w] =>
      change (bind (modify f) k w)
        with (k tt (mkWorld (f (game w)) (outbox w) (rng w)));
      assert (K : keeps votes (k tt))
  end.
  { cbv beta. keeps_tac.
    apply keeps_transition_to_reveal; reflexivity. }
  rewrite K. reflexivity.
Qed.

(** A lie that passes the truth check is stored; nothing that follows
    touches the submissions. *)
Lemma submit_lie_recorded (sid : Sid) (s : string) (w : World) (q : Question.t) :
  nth_error (questions (game w)) (current_question_index (game w)) = Some q ->
  matches_truth s (Question.answer q) = false ->
  submissions (game (snd (submit_lie sid s w)))
  = Dict.set sid s (submissions (game w)).
Proof.
  intros Hq Hm. unfold submit_lie.
  erewrite bind_Ok
    by (unfold current_question; msimpl; rewrite Hq; reflexivity).
  rewrite Hm.
  match goal with
  | |- context [bind (modify ?f) ?k w] =>
      change (bind (modify f) k w)
        with (k tt (mkWorld (f (game w)) (outbox w) (rng w)));
      assert (K : keeps submissions (k tt))
  end.
  { cbv beta. keeps_tac.
    - apply keeps_broadcast_state.
    - apply keeps_transition_to_voting; reflexivity. }
  rewrite K. reflexivity.
Qed.

(** C2, amended.  [submit_vote] and [submit_lie] are handled in every
    phase.  Whatever the phase, and however the handler ends, the vote
    is recorded under the sender's id; and whenever there is a current
    question whose truth the lie does not match, the lie is recorded
    under the sender's id. *)
Theorem submit_recorded_in_every_phase (sid : Sid) (s : string) (w : World) :
  votes (game (snd (submit_vote sid s w))) = Dict.set sid s (votes (game w)) /\
  forall q,
    nth_error (questions (game w)) (current_question_index (game w)) = Some q ->
    matches_truth s (Question.answer q) = false ->
    submissions (game (snd (submit_lie sid s w)))
    = Dict.set sid s (submissions (game w)).
Proof.
  split.
  - apply submit_vote_recorded.
  - intros q. apply submit_lie_recorded.
Qed.

Lemma submit_recorded_in_every_phase_witness :
  state (game demo_voting) = VOTING /\
  submissions (game (snd (submit_lie "s1" "Rome" demo_voting)))
  = Dict.set "s1" "Rome" (submissions (game demo_voting)).
Proof.
  split; [reflexivity|].
  apply (proj2 (submit_recorded_in_every_phase "s1" "Rome" demo_voting)
               (Question.mk "Capital of France?" "Paris" ["Lyon"])).
  - reflexivity.
  - reflexivity.
Defined.


(* ===================================================================== *)
(** ** The state broadcast during VOTING *)
(* ===================================================================== *)

(** C9 (the code does otherwise).  [broadcast_state] builds one payload
    and sends it with [socketio.emit] to every connected client.  During
    VOTING that payload is the stored option list itself, each entry with
    its type, author and sid; no second, stripped payload exists. *)
Theorem voting_broadcast_to_all (w : World) (q : Question.t) (opts : list Opt.t) :
  state (game w) = VOTING ->
  nth_error (questions (game w)) (current_question_index (game w)) = Some q ->
  current_options (game w) = Some opts ->
  broadcast_state w =
  (Ok tt,
   mkWorld (game w)
     (outbox w ++
      [mkEmit ToAll
         (state_update
            (mkHostData VOTING (time_left (game w))
               (Dict.values (players (game w)))
               (VotingView (Question.text q) opts)))])
     (rng w)).
Proof.
  intros Hs Hq Ho.
  unfold broadcast_state, current_question, get_current_options.
  msimpl. rewrite Hs. msimpl. rewrite Hq, Ho. reflexivity.
Qed.

Lemma voting_broadcast_to_all_witness :
  exists m,
    snd (broadcast_state demo_voting)
    = mkWorld (game demo_voting) (outbox demo_voting ++ [mkEmit ToAll m])
              (rng demo_voting) /\
    discloses_kinds m = true /\ names_truth m = true.
Proof.
  eexists. split.
  - rewrite (voting_broadcast_to_all demo_voting
               (Question.mk "Capital of France?" "Paris" ["Lyon"])
               [ lie_option "s2" "Madrid" "P2";
                 truth_option (Question.mk "Capital of France?" "Paris" ["Lyon"]);
                 house_option "Lyon";
                 lie_option "s1" "Berlin" "P1" ]);
      reflexivity.
  - split; reflexivity.
Defined.

(* ===================================================================== *)
(** ** The VOTING timer after a vote quorum *)
(* ===================================================================== *)

(** C1 (the code does otherwise).  [submit_vote] leaves the timer task
    and its count as they are, also when it goes on to the reveal; and
    when a running task counts down to zero it calls its completion
    action, whatever the phase is by then: [transition_to_reveal] for the
    timer of the VOTING phase, [auto_advance_input] for the timer of the
    BLUFF_INPUT phase. *)
Theorem voting_timer_fires_after_quorum :
  (forall sid vote w,
     timer_thread (game (snd (submit_vote sid vote w))) = timer_thread (game w) /\
     time_left (game (snd (submit_vote sid vote w))) = time_left (game w)) /\
  (forall w cb,
     timer_thread (game w) = Some (Running cb) ->
     time_left (game w) = 1%Z ->
     timer_tick w =
     run_callback cb
       (mkWorld (set_timer_thread (Some (Ended cb)) (set_time_left 0 (game w)))
                (outbox w ++ [mkEmit ToAll (timer_update 0)])
                (rng w))).
Proof.
  split.
  - intros sid vote w.
    assert (K : forall X (f : GameState -> X),
               (forall v g, f (set_state v g) = f g) ->
               (forall v g, f (set_players v g) = f g) ->
               (forall v g, f (set_reveal_sequence v g) = f g) ->
               (forall v g, f (set_votes v g) = f g) ->
               keeps f (submit_vote sid vote)).
    { intros X f H1 H2 H3 H4. unfold submit_vote. keeps_tac.
      - apply keeps_modify. intros. apply H4.
      - apply keeps_transition_to_reveal; assumption. }
    split; apply K; reflexivity.
  - intros w cb Ht Hl. unfold timer_tick. msimpl. rewrite Ht. msimpl.
    rewrite Hl. reflexivity.
Qed.

(** Two runs.  In the game whose lies are sent during LOBBY the timer of
    the VOTING phase exists: the second vote completes the quorum and the
    reveal awards P2 1500 points, the timer is still running, and thirty
    ticks later it runs the reveal pass again and P2 stands at 3000.  In
    the demo game, started with [start_game], [start_timer] raised at the
    entry to VOTING and the running task is the one of BLUFF_INPUT,
    counting from 30: thirty ticks after the reveal it runs
    [auto_advance_input], which takes the game from REVEAL back to VOTING
    and ends with [AttributeError]; no points are awarded twice there. *)
Lemma voting_timer_fires_after_quorum_witness :
  (state (game lobby_reveal) = REVEAL /\
   score_of "s2" (game lobby_reveal) = 1500%Z /\
   timer_thread (game lobby_last_second) = Some (Running auto_advance_voting_cb) /\
   game lobby_last_second = set_time_left 1 (game lobby_reveal) /\
   timer_tick lobby_last_second =
     run_callback auto_advance_voting_cb
       (mkWorld (set_timer_thread (Some (Ended auto_advance_voting_cb))
                   (set_time_left 0 (game lobby_last_second)))
                (outbox lobby_last_second ++ [mkEmit ToAll (timer_update 0)])
                (rng lobby_last_second)) /\
   fst (timer_tick lobby_last_second) = Ok tt /\
   state (game (snd (timer_tick lobby_last_second))) = REVEAL /\
   score_of "s2" (game (snd (timer_tick lobby_last_second))) = 3000%Z) /\
  (state (game demo_reveal) = REVEAL /\
   score_of "s2" (game demo_reveal) = 1500%Z /\
   timer_thread (game demo_last_second) = Some (Running auto_advance_input_cb) /\
   game demo_last_second = set_time_left 1 (game demo_reveal) /\
   timer_tick demo_last_second =
     run_callback auto_advance_input_cb
       (mkWorld (set_timer_thread (Some (Ended auto_advance_input_cb))
                   (set_time_left 0 (game demo_last_second)))
                (outbox demo_last_second ++ [mkEmit ToAll (timer_update 0)])
                (rng demo_last_second)) /\
   fst (timer_tick demo_last_second) = Raise AttributeError /\
   state (game (snd (timer_tick demo_last_second))) = VOTING /\
   score_of "s2" (game (snd (timer_tick demo_last_second))) = 1500%Z).
Proof.
  split.
  - split; [vm_compute; reflexivity|]. split; [vm_compute; reflexivity|].
    split; [vm_compute; reflexivity|]. split; [vm_compute; reflexivity|].
    split.
    + apply (proj2 voting_timer_fires_after_quorum lobby_last_second
               auto_advance_voting_cb); vm_compute; reflexivity.
    + vm_conj.
  - split; [vm_compute; reflexivity|]. split; [vm_compute; reflexivity|].
    split; [vm_compute; reflexivity|]. split; [vm_compute; reflexivity|].
    split.
    + apply (proj2 voting_timer_fires_after_quorum demo_last_second
               auto_advance_input_cb); vm_compute; reflexivity.
    + vm_conj.
Defined.


(* ===================================================================== *)
(** ** The shuffle is a permutation *)
(* ===================================================================== *)

Section Shuffle.
Context {A : Type}.
Implicit Types (x l : list A) (a b : A) (i j : nat).

Lemma list_set_perm i a b l :
  nth_error l i = Some a -> Permutation (a :: list_set i b l) (b :: l).
Proof.
  revert i. induction l as [|c l IH]; intros [|i]; simpl; try discriminate.
  - intros [= ->]. apply perm_swap.
  - intros H. rewrite perm_swap. rewrite (IH i H). apply perm_swap.
Qed.

Lemma nth_error_list_set i j b l :
  nth_error (list_set i b l) j =
  if (i =? j)%nat then option_map (fun _ => b) (nth_error l j)
  else nth_error l j.
Proof.
  revert i j. induction l as [|c l IH]; intros [|i] [|j]; simpl;
    try reflexivity; try (now destruct (i =? j)%nat).
  apply IH.
Qed.

Lemma swap_perm i j x : Permutation (swap i j x) x.
Proof.
  unfold swap.
  destruct (nth_error x i) as [a|] eqn:Hi; [|reflexivity].
  destruct (nth_error x j) as [b|] eqn:Hj; [|reflexivity].
  apply (Permutation_cons_inv (a := b)).
  assert (Hj' : nth_error (list_set i b x) j = Some b).
  { rewrite nth_error_list_set. rewrite Hj. now destruct (i =? j)%nat. }
  rewrite (list_set_perm j b a _ Hj').
  apply (list_set_perm i a b x Hi).
Qed.

(** [random.shuffle] never raises, reads the tape only, and returns a
    permutation of its argument. *)
Lemma shuffle_from_perm i : forall x w,
  exists x' t,
    shuffle_from i x w = (Ok x', mkWorld (game w) (outbox w) t) /\
    Permutation x' x.
Proof.
  induction i as [|i IH]; intros x w; simpl.
  - exists x, (rng w). destruct w; split; reflexivity.
  - unfold bind, randbelow.
    destruct (rng w) as [|r t] eqn:Hr.
    + destruct (IH (swap (S i) 0 x) w) as (x' & t' & E & P).
      exists x', t'. split; [exact E|].
      rewrite P. apply swap_perm.
    + destruct (IH (swap (S i) (r mod S (S i)) x) (mkWorld (game w) (outbox w) t))
        as (x' & t' & E & P).
      exists x', t'. split; [exact E|].
      rewrite P. apply swap_perm.
Qed.

Lemma shuffle_perm x w :
  exists x' t,
    shuffle x w = (Ok x', mkWorld (game w) (outbox w) t) /\ Permutation x' x.
Proof. apply shuffle_from_perm. Qed.

End Shuffle.


(* ===================================================================== *)
(** ** Entering VOTING *)
(* ===================================================================== *)

Lemma joined_nil {V} ps : joined ps (@Dict.empty V).
Proof. intros k []. Qed.

Lemma joined_cons {V} ps k (v : V) d :
  joined ps ((k, v) :: d) <-> Dict.mem k ps = true /\ joined ps d.
Proof.
  unfold joined; simpl. split.
  - intros H. split; [apply H; now left | intros k' Hk'; apply H; now right].
  - intros [H1 H2] k' [<-|Hk']; auto.
Qed.


Lemma player_at_joined sid w :
  Dict.mem sid (players (game w)) = true ->
  exists p, Dict.get sid (players (game w)) = Some p /\
            player_at sid w = (Ok p, w) /\
            name_of (players (game w)) sid = Player.name p.
Proof.
  unfold Dict.mem, player_at, name_of. msimpl.
  destruct (Dict.get sid (players (game w))) as [p|]; [|discriminate].
  intros _. exists p. repeat split.
Qed.

(** The loop of [transition_to_voting] over the submissions. *)
Lemma lie_options_loop (subs : Dict.t string) : forall acc w,
  joined (players (game w)) subs ->
  foldM (fun acc '(sid, lie) =>
           p <- player_at sid ;;
           ret (acc ++ [lie_option sid lie (Player.name p)]))
        acc subs w
  = (Ok (acc ++ map (fun '(sid, lie) =>
                       lie_option sid lie (name_of (players (game w)) sid)) subs),
     w).
Proof.
  induction subs as [|[sid lie] subs IH]; intros acc w Hj; simpl.
  - now rewrite app_nil_r.
  - apply joined_cons in Hj. destruct Hj as [Hsid Hj].
    destruct (player_at_joined sid w Hsid) as (p & _ & Hp & Hn).
    erewrite bind_Ok by (erewrite bind_Ok by exact Hp; reflexivity).
    rewrite IH by exact Hj. rewrite Hn, <- app_assoc. reflexivity.
Qed.

(** The comprehension of [broadcast_state] over the submitters. *)
Lemma submitted_names_loop (ks : list Sid) : forall acc w,
  (forall k, In k ks -> Dict.mem k (players (game w)) = true) ->
  foldM (fun acc sid => p <- player_at sid ;; ret (acc ++ [Player.name p]))
        acc ks w
  = (Ok (acc ++ map (name_of (players (game w))) ks), w).
Proof.
  induction ks as [|sid ks IH]; intros acc w Hj; simpl.
  - now rewrite app_nil_r.
  - destruct (player_at_joined sid w (Hj sid (or_introl eq_refl)))
      as (p & _ & Hp & Hn).
    erewrite bind_Ok by (erewrite bind_Ok by exact Hp; reflexivity).
    rewrite IH by (intros k Hk; apply Hj; now right).
    rewrite Hn, <- app_assoc. reflexivity.
Qed.

(** The loops that look players up stop at the first id that is not in
    the table. *)
Lemma submitted_names_loop_missing (ks : list Sid) : forall acc w,
  (exists k, In k ks /\ Dict.mem k (players (game w)) = false) ->
  foldM (fun acc sid => p <- player_at sid ;; ret (acc ++ [Player.name p]))
        acc ks w
  = (Raise KeyError, w).
Proof.
  induction ks as [|sid ks IH]; intros acc w (k & Hin & Hk); [destruct Hin|].
  cbn [foldM].
  destruct (Dict.mem sid (players (game w))) eqn:Hm.
  - destruct (player_at_joined sid w Hm) as (p & _ & Hp & _).
    erewrite bind_Ok by (erewrite bind_Ok by exact Hp; reflexivity).
    apply IH. exists k. split; [|exact Hk].
    destruct Hin as [<-|Hin]; [congruence | exact Hin].
  - apply bind_Raise. apply bind_Raise.
    unfold player_at, Dict.mem in *. msimpl.
    destruct (Dict.get sid (players (game w))); [discriminate | reflexivity].
Qed.

Lemma lie_options_loop_missing (subs : Dict.t string) : forall acc w,
  (exists k, In k (Dict.keys subs) /\ Dict.mem k (players (game w)) = false) ->
  foldM (fun acc '(sid, lie) =>
           p <- player_at sid ;;
           ret (acc ++ [lie_option sid lie (Player.name p)]))
        acc subs w
  = (Raise KeyError, w).
Proof.
  induction subs as [|[sid lie] subs IH]; intros acc w (k & Hin & Hk);
    [destruct Hin|].
  simpl in Hin. cbn [foldM].
  destruct (Dict.mem sid (players (game w))) eqn:Hm.
  - destruct (player_at_joined sid w Hm) as (p & _ & Hp & _).
    erewrite bind_Ok by (erewrite bind_Ok by exact Hp; reflexivity).
    apply IH. exists k. split; [|exact Hk].
    destruct Hin as [<-|Hin]; [congruence | exact Hin].
  - apply bind_Raise. apply bind_Raise.
    unfold player_at, Dict.mem in *. msimpl.
    destruct (Dict.get sid (players (game w))); [discriminate | reflexivity].
Qed.

(** The transitions that raise, and what they leave. *)
Lemma failed_transition_parts (w : World) :
  (nth_error (questions (game w)) (current_question_index (game w)) = None ->
   transition_to_voting w
   = (Raise IndexError, mkWorld (set_state VOTING (game w)) (outbox w) (rng w)) /\
   transition_to_reveal w
   = (Raise IndexError, mkWorld (set_state REVEAL (game w)) (outbox w) (rng w))) /\
  (forall q,
     nth_error (questions (game w)) (current_question_index (game w)) = Some q ->
     (current_options (game w) = None ->
      transition_to_reveal w
      = (Raise AttributeError,
         mkWorld (set_state REVEAL (game w)) (outbox w) (rng w))) /\
     ((exists k, In k (Dict.keys (submissions (game w))) /\
                 Dict.mem k (players (game w)) = false) ->
      transition_to_voting w
      = (Raise KeyError,
         mkWorld (set_house_lies_active (Question.house_lies q)
                    (set_state VOTING (game w)))
                 (outbox w) (rng w)))).
Proof.
  split.
  - intros Hq. split.
    + unfold transition_to_voting.
      erewrite bind_Ok by reflexivity. apply bind_Raise.
      unfold current_question. msimpl. now rewrite Hq.
    + unfold transition_to_reveal.
      erewrite bind_Ok by reflexivity. apply bind_Raise.
      unfold current_question. msimpl. now rewrite Hq.
  - intros q Hq. split.
    + intros Ho. unfold transition_to_reveal.
      erewrite bind_Ok by reflexivity.
      erewrite bind_Ok
        by (unfold current_question; msimpl; rewrite Hq; reflexivity).
      apply bind_Raise. unfold get_current_options. msimpl. now rewrite Ho.
    + intros Hmiss. unfold transition_to_voting.
      erewrite bind_Ok by reflexivity.
      erewrite bind_Ok
        by (unfold current_question; msimpl; rewrite Hq; reflexivity).
      erewrite bind_Ok by reflexivity.
      erewrite bind_Ok by reflexivity.
      apply bind_Raise. apply lie_options_loop_missing. exact Hmiss.
Qed.

(** With a current question and every submitter among the players,
    [transition_to_voting] stores the shuffled options and broadcasts
    them; it ends as [start_timer] does. *)
Lemma transition_to_voting_run (w : World) (q : Question.t) :
  nth_error (questions (game w)) (current_question_index (game w)) = Some q ->
  joined (players (game w)) (submissions (game w)) ->
  exists opts t,
    transition_to_voting w
    = (timer_result (game w),
       mkWorld (voting_game q opts (game w))
         (outbox w ++
          [mkEmit ToAll
             (state_update
                (mkHostData VOTING (time_left (game w))
                   (Dict.values (players (game w)))
                   (VotingView (Question.text q) opts)))])
         t) /\
    Permutation opts (built_options q (game w)).
Proof.
  intros Hq Hj. unfold transition_to_voting.
  erewrite bind_Ok by reflexivity.
  erewrite bind_Ok
    by (unfold current_question; msimpl; rewrite Hq; reflexivity).
  erewrite bind_Ok by reflexivity.
  erewrite bind_Ok by reflexivity.
  erewrite bind_Ok by (apply lie_options_loop; exact Hj).
  match goal with
  | |- context [shuffle ?x] =>
      match goal with
      | |- context [bind (shuffle x) ?k ?w1] =>
          destruct (shuffle_perm x w1) as (opts & t & Hsh & Hperm)
      end
  end.
  erewrite bind_Ok by exact Hsh.
  exists opts, t. split; [|exact Hperm].
  unfold broadcast_state, start_timer, current_question, get_current_options,
    timer_result, voting_game, timer_after.
  msimpl. rewrite Hq. msimpl.
  destruct (timer_thread (game w)) eqn:Ht; msimpl; rewrite ?Ht;
    [rewrite set_timer_thread_kept by exact Ht|]; reflexivity.
Qed.


(** *** The quorum path: an accepted lie in BLUFF_INPUT *)

Lemma submit_lie_accepted_run (sid : Sid) (lie : string) (w : World) (q : Question.t) :
  state (game w) = BLUFF_INPUT ->
  nth_error (questions (game w)) (current_question_index (game w)) = Some q ->
  matches_truth lie (Question.answer q) = false ->
  Dict.mem sid (players (game w)) = true ->
  joined (players (game w)) (submissions (game w)) ->
  submit_lie sid lie w =
  if (List.length (active_players (game w))
      <=? Dict.len (Dict.set sid lie (submissions (game w))))%nat
  then transition_to_voting (recorded_lie sid lie w)
  else (Ok tt, recorded_lie sid lie w).
Proof.
  intros Hs Hq Hm Hsid Hj. unfold submit_lie.
  erewrite bind_Ok
    by (unfold current_question; msimpl; rewrite Hq; reflexivity).
  rewrite Hm.
  erewrite bind_Ok by reflexivity.
  erewrite bind_Ok by reflexivity.
  erewrite bind_Ok.
  2:{ unfold broadcast_state. erewrite bind_Ok by reflexivity.
      cbn [game state set_submissions]. rewrite Hs.
      erewrite bind_Ok.
      2:{ erewrite bind_Ok
            by (unfold current_question; msimpl; rewrite Hq; reflexivity).
          erewrite bind_Ok.
          2:{ apply submitted_names_loop. cbn [game players set_submissions].
              intros k Hk. apply in_keys_set in Hk.
              destruct Hk as [->|Hk]; [exact Hsid | now apply Hj]. }
          reflexivity. }
      reflexivity. }
  erewrite bind_Ok by reflexivity.
  unfold recorded_lie. cbn [game players questions current_question_index
    submissions time_left set_submissions app]. rewrite Hq.
  cbn [outbox rng]. rewrite <- app_assoc. cbn [app].
  change (active_players
            (set_submissions (Dict.set sid lie (submissions (game w))) (game w)))
    with (active_players (game w)).
  destruct (_ <=? _)%nat; reflexivity.
Qed.

(** A lie recorded while somebody who is not a player has a submission:
    the broadcast raises at that name, before the quorum test. *)
Lemma submit_lie_blocked_run (sid : Sid) (lie : string) (w : World) (q : Question.t) :
  state (game w) = BLUFF_INPUT ->
  nth_error (questions (game w)) (current_question_index (game w)) = Some q ->
  matches_truth lie (Question.answer q) = false ->
  (exists k, In k (Dict.keys (Dict.set sid lie (submissions (game w)))) /\
             Dict.mem k (players (game w)) = false) ->
  submit_lie sid lie w
  = (Raise KeyError,
     mkWorld (set_submissions (Dict.set sid lie (submissions (game w))) (game w))
             (outbox w ++ [mkEmit (ToSid sid) submitted_success])
             (rng w)).
Proof.
  intros Hs Hq Hm Hmiss. unfold submit_lie.
  erewrite bind_Ok
    by (unfold current_question; msimpl; rewrite Hq; reflexivity).
  rewrite Hm.
  erewrite bind_Ok by reflexivity.
  erewrite bind_Ok by reflexivity.
  apply bind_Raise.
  unfold broadcast_state. erewrite bind_Ok by reflexivity.
  cbn [game state set_submissions]. rewrite Hs.
  apply bind_Raise.
  erewrite bind_Ok
    by (unfold current_question; msimpl; rewrite Hq; reflexivity).
  apply bind_Raise.
  apply submitted_names_loop_missing. exact Hmiss.
Qed.

(** *** The timer path: [auto_advance_input] *)








(* ===================================================================== *)
(** ** The question bank *)
(* ===================================================================== *)

Lemma truthy_nonblank l : PyStr.truthy (PyStr.strip l) = nonblank l.
Proof. unfold nonblank. now destruct (PyStr.strip l). Qed.

Lemma keeps_start_timer {X} (f : GameState -> X) d cb :
  (forall v g, f (set_time_left v g) = f g) ->
  (forall v g, f (set_timer_thread v g) = f g) ->
  keeps f (start_timer d cb).
Proof.
  intros H1 H2. unfold start_timer.
  repeat first [ apply keeps_modify; intros; first [apply H1 | apply H2]
               | keeps_step ].
Qed.

(** Only [add_question] changes the bank, and it appends one question
    whose decoys are the non-blank ones of the payload. *)
Lemma handle_questions (e : Event) (w : World) :
  questions (game (snd (handle e w))) =
  questions (game w) ++
  match e with
  | EAddQuestion q a hl => [Question.mk q a (filter nonblank hl)]
  | _ => []
  end.
Proof.
  destruct e; try rewrite app_nil_r;
    try (revert w;
         match goal with
         | |- forall w, questions (game (snd (?c w))) = _ =>
             change (keeps questions c)
         end).
  - unfold handle, connect. keeps_tac.
  - unfold handle, host_login. keeps_tac.
  - unfold handle, join_game. keeps_tac. apply keeps_broadcast_state.
  - simpl. f_equal. f_equal. f_equal. apply filter_ext. intros l.
    apply truthy_nonblank.
  - unfold handle, start_game_event. keeps_tac.
    + apply keeps_broadcast_state.
    + apply keeps_start_timer; reflexivity.
  - unfold handle, submit_lie. keeps_tac.
    + apply keeps_current_question.
    + apply keeps_broadcast_state.
    + apply keeps_transition_to_voting; reflexivity.
  - unfold handle, submit_vote. keeps_tac.
    apply keeps_transition_to_reveal; reflexivity.
  - intros w. unfold handle, next_round_event, next_round.
    unfold bind at 1. unfold get_game at 1. cbv beta iota.
    destruct (_ <=? _)%nat;
      match goal with
      | |- context [bind (modify ?h) ?k w] =>
          change (bind (modify h) k w)
            with (k tt (mkWorld (h (game w)) (outbox w) (rng w)));
          assert (K : keeps questions (k tt))
      end.
    1,3: cbv beta; keeps_tac; try apply keeps_broadcast_state;
         apply keeps_start_timer; reflexivity.
    all: rewrite K; reflexivity.
  - unfold handle, timer_tick, run_callback, auto_advance_input,
      auto_advance_voting.
    keeps_tac;
      try (apply keeps_transition_to_voting; reflexivity);
      try (apply keeps_transition_to_reveal; reflexivity).
Qed.










(* ===================================================================== *)
(** ** The truth check of submit_lie *)
(* ===================================================================== *)

(** C6, as stated, fails in its last part.  The truth of the question is
    ["p1 FELL asleep"].  P1 sends ["P1 fell asleep"], which is rejected,
    and sends nothing else; P2 sends a lie of their own.  When the input
    timer runs out, [auto_advance_input] records for P1 the placeholder
    ["P1 fell asleep"], without the truth check: the round enters VOTING
    with the rejected text as the PLAYER_LIE option of its sender. *)
Lemma rejected_text_among_options :
  state (game sleepy_bluff) = BLUFF_INPUT /\
  submit_lie "s1" "P1 fell asleep" sleepy_bluff
  = (Ok tt, rejected_lie "s1" sleepy_bluff) /\
  let w' := run (ESubmitLie "s2" "He won" :: repeat ETimerTick 60)
                (rejected_lie "s1" sleepy_bluff) in
  state (game w') = VOTING /\
  submissions (game w') = [("s2", "He won"); ("s1", "P1 fell asleep")] /\
  In (lie_option "s1" "P1 fell asleep" "P1")
     (match current_options (game w') with Some o => o | None => [] end) /\
  In "P1 fell asleep" (option_texts (game w')).
Proof.
  split; [vm_compute; reflexivity|]. split; [vm_compute; reflexivity|].
  split; [vm_compute; reflexivity|]. split; [vm_compute; reflexivity|].
  split; vm_compute; tauto.
Qed.

(** C6, amended.  With a current question: a lie that equals its truth
    after [lower] and [strip] is rejected: the handler answers the
    sender with the error message and leaves the game as it was, so
    nothing is recorded and the phase, the submissions and the options
    are unchanged.  Any other lie is recorded under the sender's id,
    replacing the sender's previous entry and no other. *)
Theorem submit_lie_truth_check (sid : Sid) (lie : string) (w : World) (q : Question.t) :
  nth_error (questions (game w)) (current_question_index (game w)) = Some q ->
  (matches_truth lie (Question.answer q) = true ->
   submit_lie sid lie w = (Ok tt, rejected_lie sid w) /\
   game (rejected_lie sid w) = game w /\
   outbox (rejected_lie sid w) = outbox w ++ [mkEmit (ToSid sid) (error too_close)]) /\
  (matches_truth lie (Question.answer q) = false ->
   let subs' := submissions (game (snd (submit_lie sid lie w))) in
   subs' = Dict.set sid lie (submissions (game w)) /\
   Dict.get sid subs' = Some lie /\
   forall k, k <> sid -> Dict.get k subs' = Dict.get k (submissions (game w))).
Proof.
  intros Hq. split.
  - intros Hm. split; [|split; reflexivity].
    unfold submit_lie.
    erewrite bind_Ok
      by (unfold current_question; msimpl; rewrite Hq; reflexivity).
    rewrite Hm. reflexivity.
  - intros Hm subs'. subst subs'.
    rewrite (submit_lie_recorded sid lie w q Hq Hm).
    split; [reflexivity|]. split; [apply get_set_eq|].
    intros k Hk. apply get_set_neq. exact Hk.
Qed.

Lemma submit_lie_truth_check_witness :
  submit_lie "s2" "paris " demo_one_lie = (Ok tt, rejected_lie "s2" demo_one_lie) /\
  Dict.get "s2" (submissions (game (snd (submit_lie "s2" "paris " demo_one_lie))))
  = None /\
  Dict.get "s2" (submissions (game (snd (submit_lie "s2" "Madrid" demo_one_lie))))
  = Some "Madrid".
Proof.
  split; [|split].
  - apply (submit_lie_truth_check "s2" "paris " demo_one_lie
             (Question.mk "Capital of France?" "Paris" ["Lyon"])).
    + vm_compute; reflexivity.
    + vm_compute; reflexivity.
  - vm_compute; reflexivity.
  - apply (proj2 (submit_lie_truth_check "s2" "Madrid" demo_one_lie
                   (Question.mk "Capital of France?" "Paris" ["Lyon"])
                   ltac:(vm_compute; reflexivity))).
    vm_compute; reflexivity.
Defined.


(* ===================================================================== *)
(** ** The submission quorum *)
(* ===================================================================== *)

Lemma active_players_length g :
  List.length (active_players g) = List.length (connected_ids (players g)).
Proof. unfold active_players, connected_ids. now rewrite !length_map. Qed.

Lemma NoDup_map_fst_filter {A B} (f : A * B -> bool) (l : list (A * B)) :
  NoDup (map fst l) -> NoDup (map fst (filter f l)).
Proof.
  induction l as [|x l IH]; simpl; intros H; [constructor|].
  inversion H as [|? ? Hni Hnd]; subst.
  destruct (f x); simpl; [|auto].
  constructor; [|auto].
  intros Hin. apply Hni. apply in_map_iff in Hin.
  destruct Hin as (y & Hy & Hin). apply filter_In in Hin.
  rewrite <- Hy. apply in_map. tauto.
Qed.

Lemma in_connected_ids ps k :
  In k (connected_ids ps) ->
  exists p, In (k, p) ps /\ Player.connected p = true.
Proof.
  unfold connected_ids. intros H. apply in_map_iff in H.
  destruct H as ([k' p] & Hk & Hin). simpl in Hk. subst k'.
  apply filter_In in Hin. exists p. exact Hin.
Qed.

Lemma connected_ids_in ps k p :
  In (k, p) ps -> Player.connected p = true -> In k (connected_ids ps).
Proof.
  intros Hin Hc. unfold connected_ids.
  apply in_map_iff. exists (k, p). split; [reflexivity|].
  apply filter_In. split; assumption.
Qed.

(** Counting decides the quorum exactly when the counted submissions are
    those of connected players. *)
Lemma quorum_by_count (ps : Dict.t Player.t) (subs : Dict.t string) :
  NoDup (Dict.keys ps) -> NoDup (Dict.keys subs) ->
  (forall k, In k (Dict.keys subs) ->
             exists p, Dict.get k ps = Some p /\ Player.connected p = true) ->
  (List.length (connected_ids ps) <= Dict.len subs)%nat
  <-> every_connected_submitted ps subs.
Proof.
  intros Hps Hsubs Hfrom.
  assert (Hincl : incl (Dict.keys subs) (connected_ids ps)).
  { intros k Hk. destruct (Hfrom k Hk) as (p & Hget & Hc).
    eapply connected_ids_in; [apply get_Some_In; exact Hget | exact Hc]. }
  unfold Dict.len. rewrite <- (length_map fst subs).
  fold (Dict.keys subs). split.
  - intros Hlen k p Hget Hc. apply mem_keys.
    eapply (NoDup_length_incl Hsubs Hlen Hincl).
    eapply connected_ids_in; [apply get_Some_In; exact Hget | exact Hc].
  - intros Hall. apply NoDup_incl_length.
    + apply NoDup_map_fst_filter. exact Hps.
    + intros k Hk. apply in_connected_ids in Hk.
      destruct Hk as (p & Hin & Hc). apply mem_keys.
      eapply Hall; [|exact Hc]. apply get_In_NoDup; assumption.
Qed.

(** C4 (the code does otherwise).  In BLUFF_INPUT, when a lie is
    recorded: if somebody who is not a player has a submission, the
    broadcast raises [KeyError] and the handler ends there, in
    BLUFF_INPUT, without the test the source announces with "Check if
    all submitted", whether or not every connected player has submitted.
    If all submitters are players, the test is made, and it compares two
    counts: VOTING begins iff the number of recorded submissions is at
    least the number of connected players, and the handler then ends as
    [start_timer] does.  The count says that every connected player has
    a recorded submission exactly when every recorded submission is that
    of a connected player. *)
Theorem submit_lie_quorum (sid : Sid) (lie : string) (w : World) (q : Question.t) :
  state (game w) = BLUFF_INPUT ->
  nth_error (questions (game w)) (current_question_index (game w)) = Some q ->
  matches_truth lie (Question.answer q) = false ->
  let subs' := Dict.set sid lie (submissions (game w)) in
  let quorum :=
    (List.length (connected_ids (players (game w))) <= Dict.len subs')%nat in
  ((exists k, In k (Dict.keys subs') /\ Dict.mem k (players (game w)) = false) ->
   exists w',
     submit_lie sid lie w = (Raise KeyError, w') /\
     submissions (game w') = subs' /\
     players (game w') = players (game w) /\
     state (game w') = BLUFF_INPUT) /\
  (joined (players (game w)) subs' ->
   exists w',
     submit_lie sid lie w
     = (if (List.length (connected_ids (players (game w))) <=? Dict.len subs')%nat
        then timer_result (game w) else Ok tt,
        w') /\
     submissions (game w') = subs' /\
     players (game w') = players (game w) /\
     (state (game w') = VOTING <-> quorum) /\
     (state (game w') = BLUFF_INPUT <-> ~ quorum)) /\
  (NoDup (Dict.keys (players (game w))) ->
   NoDup (Dict.keys (submissions (game w))) ->
   (forall k, In k (Dict.keys subs') ->
      exists p, Dict.get k (players (game w)) = Some p /\
                Player.connected p = true) ->
   (quorum <-> every_connected_submitted (players (game w)) subs')).
Proof.
  intros Hs Hq Hm subs' quorum. split; [|split].
  - intros Hmiss.
    rewrite (submit_lie_blocked_run sid lie w q Hs Hq Hm Hmiss).
    eexists. split; [reflexivity|].
    cbn [game submissions players state set_submissions].
    repeat split. exact Hs.
  - intros Hj'.
    assert (Hsid : Dict.mem sid (players (game w)) = true).
    { apply Hj'. apply in_keys_set. now left. }
    assert (Hj : joined (players (game w)) (submissions (game w))).
    { intros k Hk. apply Hj'. apply in_keys_set. now right. }
    rewrite (submit_lie_accepted_run sid lie w q Hs Hq Hm Hsid Hj).
    rewrite active_players_length. fold subs'.
    destruct (Nat.leb_spec (List.length (connected_ids (players (game w))))
                           (Dict.len subs')) as [Hle|Hgt].
    + destruct (transition_to_voting_run (recorded_lie sid lie w) q)
        as (opts & t & Hrun & _).
      * exact Hq.
      * exact Hj'.
      * eexists. split; [exact Hrun|].
        cbn [game voting_game state submissions players recorded_lie
             set_timer_thread set_time_left set_current_options
             set_house_lies_active set_state set_submissions].
        split; [reflexivity|]. split; [reflexivity|].
        split; [tauto|].
        split; [discriminate | intros Hn; exfalso; apply Hn; exact Hle].
    + eexists. split; [reflexivity|].
      cbn [game state submissions players recorded_lie set_submissions].
      split; [reflexivity|]. split; [reflexivity|].
      rewrite Hs. unfold quorum.
      split; [split; [discriminate | lia]|].
      split; [lia | reflexivity].
  - intros Hps Hsubs Hfrom. apply quorum_by_count; try assumption.
    apply NoDup_keys_set. exact Hsubs.
Qed.

(** The demo game just started.  A session that never joined sends a lie,
    then P1 and P2 send theirs: every connected player has a recorded
    submission, each handler has raised [KeyError], and the game is still
    in BLUFF_INPUT. *)
Lemma submit_lie_quorum_witness :
  state (game stranger_bluff) = BLUFF_INPUT /\
  exists w',
    submit_lie "s2" "Madrid" stranger_bluff = (Raise KeyError, w') /\
    submissions (game w') = [("x9", "Rome"); ("s1", "Berlin"); ("s2", "Madrid")] /\
    state (game w') = BLUFF_INPUT /\
    every_connected_submitted (players (game w')) (submissions (game w')).
Proof.
  split; [vm_compute; reflexivity|].
  destruct (submit_lie_quorum "s2" "Madrid" stranger_bluff
              (Question.mk "Capital of France?" "Paris" ["Lyon"]))
    as [Hblocked _]; try (vm_compute; reflexivity).
  destruct Hblocked as (w' & Hrun & Hsub & Hpl & Hst).
  - exists "x9". split; [vm_compute; tauto | vm_compute; reflexivity].
  - exists w'. split; [exact Hrun|].
    split; [rewrite Hsub; vm_compute; reflexivity|].
    split; [exact Hst|].
    rewrite Hsub, Hpl. intros k p Hk Hc. apply get_Some_In in Hk.
    vm_compute in Hk.
    destruct Hk as [Hk|[Hk|[]]]; injection Hk as <- <-; vm_compute; reflexivity.
Defined.


(* ===================================================================== *)
(** ** The scoring pass *)
(* ===================================================================== *)

(** *** The pass as a function of the player table *)

Lemma mem_award a n ps k : Dict.mem k (award a n ps) = Dict.mem k ps.
Proof.
  unfold award. destruct (Dict.get a ps) as [p|] eqn:Ha; [|reflexivity].
  unfold Dict.mem. destruct (String.eqb_spec k a) as [->|Hk].
  - now rewrite get_set_eq, Ha.
  - now rewrite get_set_neq.
Qed.

Lemma name_of_award a n ps k : name_of (award a n ps) k = name_of ps k.
Proof.
  unfold award. destruct (Dict.get a ps) as [p|] eqn:Ha; [|reflexivity].
  unfold name_of. destruct (String.eqb_spec k a) as [->|Hk].
  - now rewrite get_set_eq, Ha.
  - now rewrite get_set_neq.
Qed.

Lemma score_award a n ps k :
  Dict.mem a ps = true ->
  score (award a n ps) k = (score ps k + if String.eqb k a then n else 0)%Z.
Proof.
  unfold Dict.mem, award, score.
  destruct (Dict.get a ps) as [p|] eqn:Ha; [intros _|discriminate].
  destruct (String.eqb_spec k a) as [->|Hk].
  - now rewrite get_set_eq, Ha.
  - rewrite get_set_neq by exact Hk. lia.
Qed.

Lemma player_at_with_players k ps w0 :
  Dict.mem k ps = true ->
  exists p, player_at k (with_players ps w0) = (Ok p, with_players ps w0) /\
            Player.name p = name_of ps k.
Proof.
  intros Hk.
  destruct (player_at_joined k (with_players ps w0) Hk) as (p & _ & Hrun & Hn).
  exists p. split; [exact Hrun | symmetry; exact Hn].
Qed.

Lemma add_score_with_players a n ps w0 :
  Dict.mem a ps = true ->
  add_score a n (with_players ps w0) = (Ok tt, with_players (award a n ps) w0).
Proof.
  intros Ha. unfold add_score, player_at, award. msimpl.
  unfold Dict.mem in Ha.
  destruct (Dict.get a ps) as [p|]; [reflexivity|discriminate].
Qed.

Lemma lie_vote_step_mem o ps voters v k :
  Dict.mem k (fst (lie_vote_step o (ps, voters) v)) = Dict.mem k ps.
Proof.
  destruct v as [vid vt]. simpl.
  destruct (String.eqb vt (Opt.text o)); [|reflexivity]. simpl.
  destruct (Opt.type o); try reflexivity.
  destruct (Opt.sid o); [|reflexivity].
  destruct (negb _); [apply mem_award | reflexivity].
Qed.

Lemma fold_lie_vote_step_mem o vs : forall ps voters k,
  Dict.mem k (fst (fold_left (lie_vote_step o) vs (ps, voters))) = Dict.mem k ps.
Proof.
  induction vs as [|v vs IH]; intros ps voters k; cbn [fold_left];
    [reflexivity|].
  pose proof (lie_vote_step_mem o ps voters v k) as H.
  destruct (lie_vote_step o (ps, voters) v) as [ps1 voters1].
  rewrite IH. exact H.
Qed.

(** *** The handler follows the function *)

Lemma reveal_option_votes_unfold option :
  reveal_option_votes option =
  (g <- get_game ;; foldM (reveal_vote_body option) [] (Dict.items (votes g))).
Proof. reflexivity. Qed.

Lemma reveal_vote_body_run o ps voters v w0 :
  Dict.mem (fst v) ps = true ->
  (Opt.type o = Opt.LIE -> exists a, Opt.sid o = Some a /\ Dict.mem a ps = true) ->
  reveal_vote_body o voters v (with_players ps w0)
  = (Ok (snd (lie_vote_step o (ps, voters) v)),
     with_players (fst (lie_vote_step o (ps, voters) v)) w0).
Proof.
  destruct v as [vid vt]. cbn [fst]. intros Hv Ha.
  unfold reveal_vote_body, lie_vote_step.
  destruct (String.eqb vt (Opt.text o)); [|reflexivity].
  destruct (player_at_with_players vid ps w0 Hv) as (p & Hp & Hn).
  erewrite bind_Ok by exact Hp. rewrite Hn. cbn [fst snd].
  destruct (Opt.type o) eqn:Hty; try reflexivity.
  destruct (Ha eq_refl) as (a & Hsid & Hmem). rewrite Hsid.
  destruct (negb (String.eqb vid a)); [|reflexivity].
  erewrite bind_Ok by (apply add_score_with_players; exact Hmem).
  reflexivity.
Qed.

Lemma reveal_votes_loop o (vs : Dict.t string) : forall ps voters w0,
  joined ps vs ->
  (Opt.type o = Opt.LIE -> exists a, Opt.sid o = Some a /\ Dict.mem a ps = true) ->
  foldM (reveal_vote_body o) voters vs (with_players ps w0)
  = (Ok (snd (fold_left (lie_vote_step o) vs (ps, voters))),
     with_players (fst (fold_left (lie_vote_step o) vs (ps, voters))) w0).
Proof.
  induction vs as [|[vid vt] vs IH]; intros ps voters w0 Hj Ha;
    cbn [foldM fold_left]; [reflexivity|].
  apply joined_cons in Hj. destruct Hj as [Hv Hj].
  erewrite bind_Ok by (apply reveal_vote_body_run; [exact Hv | exact Ha]).
  pose proof (fun k => lie_vote_step_mem o ps voters (vid, vt) k) as Hmem.
  destruct (lie_vote_step o (ps, voters) (vid, vt)) as [ps1 voters1].
  cbn [fst snd] in *.
  apply IH.
  - intros k Hk. rewrite Hmem. apply Hj. exact Hk.
  - intros Hty. destruct (Ha Hty) as (a & Hsid & Ham).
    exists a. split; [exact Hsid|]. rewrite Hmem. exact Ham.
Qed.

Lemma lie_option_step_mem vs ps events o k :
  Dict.mem k (fst (lie_option_step vs (ps, events) o)) = Dict.mem k ps.
Proof.
  unfold lie_option_step.
  pose proof (fold_lie_vote_step_mem o vs ps [] k) as H.
  destruct (fold_left (lie_vote_step o) vs (ps, [])) as [ps1 voters1].
  destruct (Opt.type o); cbn [fst] in *; first [reflexivity | exact H].
Qed.

Lemma reveal_option_body_run o ps events w0 :
  joined ps (votes (game w0)) ->
  (Opt.type o = Opt.LIE -> exists a, Opt.sid o = Some a /\ Dict.mem a ps = true) ->
  reveal_option_body events o (with_players ps w0)
  = (Ok (snd (lie_option_step (votes (game w0)) (ps, events) o)),
     with_players (fst (lie_option_step (votes (game w0)) (ps, events) o)) w0).
Proof.
  intros Hj Ha. unfold reveal_option_body, lie_option_step.
  pose proof (reveal_votes_loop o (votes (game w0)) ps [] w0 Hj Ha) as Hloop.
  destruct (fold_left (lie_vote_step o) (votes (game w0)) (ps, []))
    as [ps1 voters1].
  cbn [fst snd] in Hloop.
  destruct (Opt.type o); try reflexivity;
    (erewrite bind_Ok
       by (rewrite reveal_option_votes_unfold;
           erewrite bind_Ok by reflexivity; exact Hloop);
     reflexivity).
Qed.

Lemma reveal_options_loop (opts : list Opt.t) : forall ps events w0,
  joined ps (votes (game w0)) ->
  authors_joined ps opts ->
  foldM reveal_option_body events opts (with_players ps w0)
  = (Ok (snd (fold_left (lie_option_step (votes (game w0))) opts (ps, events))),
     with_players
       (fst (fold_left (lie_option_step (votes (game w0))) opts (ps, events))) w0).
Proof.
  induction opts as [|o opts IH]; intros ps events w0 Hj Ha;
    cbn [foldM fold_left]; [reflexivity|].
  erewrite bind_Ok.
  2:{ apply reveal_option_body_run; [exact Hj|].
      intros Hty. apply Ha; [now left | exact Hty]. }
  pose proof (fun k => lie_option_step_mem (votes (game w0)) ps events o k) as Hmem.
  destruct (lie_option_step (votes (game w0)) (ps, events) o) as [ps1 events1].
  cbn [fst snd] in *.
  apply IH.
  - intros k Hk. rewrite Hmem. apply Hj. exact Hk.
  - intros o' Ho' Hty. destruct (Ha o' (or_intror Ho') Hty) as (a & Hsid & Ham).
    exists a. split; [exact Hsid|]. rewrite Hmem. exact Ham.
Qed.

Lemma truth_votes_loop truth_text (vs : Dict.t string) : forall ps voters w0,
  joined ps vs ->
  foldM (truth_vote_body truth_text) voters vs (with_players ps w0)
  = (Ok (snd (fold_left (truth_vote_step truth_text) vs (ps, voters))),
     with_players (fst (fold_left (truth_vote_step truth_text) vs (ps, voters))) w0).
Proof.
  induction vs as [|[vid vt] vs IH]; intros ps voters w0 Hj;
    cbn [foldM fold_left]; [reflexivity|].
  apply joined_cons in Hj. destruct Hj as [Hv Hj].
  unfold truth_vote_body at 1. unfold truth_vote_step at 2 4.
  destruct (String.eqb vt truth_text).
  - destruct (player_at_with_players vid ps w0 Hv) as (p & Hp & Hn).
    erewrite bind_Ok.
    2:{ erewrite bind_Ok by exact Hp.
        erewrite bind_Ok by (apply add_score_with_players; exact Hv).
        reflexivity. }
    rewrite Hn. apply IH.
    intros k Hk. rewrite mem_award. apply Hj. exact Hk.
  - erewrite bind_Ok by reflexivity. apply IH. exact Hj.
Qed.

Lemma fold_lie_option_step_mem vs opts : forall ps events k,
  Dict.mem k (fst (fold_left (lie_option_step vs) opts (ps, events)))
  = Dict.mem k ps.
Proof.
  induction opts as [|o opts IH]; intros ps events k; cbn [fold_left];
    [reflexivity|].
  pose proof (lie_option_step_mem vs ps events o k) as H.
  destruct (lie_option_step vs (ps, events) o) as [ps1 events1].
  rewrite IH. exact H.
Qed.

(** With a current question, stored options, voters and authors among
    the players, [transition_to_reveal] completes. *)
Lemma transition_to_reveal_run (w : World) (q : Question.t) (opts : list Opt.t) :
  nth_error (questions (game w)) (current_question_index (game w)) = Some q ->
  current_options (game w) = Some opts ->
  joined (players (game w)) (votes (game w)) ->
  authors_joined (players (game w)) opts ->
  exists events m,
    transition_to_reveal w
    = (Ok tt,
       mkWorld
         (set_reveal_sequence (Some events)
            (set_players
               (scored_players (Question.answer q) opts (votes (game w))
                               (players (game w)))
               (set_state REVEAL (game w))))
         (outbox w ++ [mkEmit ToAll m]) (rng w)).
Proof.
  intros Hq Ho Hj Ha. unfold transition_to_reveal.
  erewrite bind_Ok by reflexivity.
  erewrite bind_Ok
    by (unfold current_question; msimpl; rewrite Hq; reflexivity).
  erewrite bind_Ok
    by (unfold get_current_options; msimpl; rewrite Ho; reflexivity).
  set (w1 := mkWorld (set_state REVEAL (game w)) (outbox w) (rng w)).
  change (snd (modify (set_state REVEAL) w)) with w1.
  pose proof (reveal_options_loop opts (players (game w)) [] w1 Hj Ha) as H1.
  change (with_players (players (game w)) w1) with w1 in H1.
  change (votes (game w1)) with (votes (game w)) in H1.
  erewrite bind_Ok by exact H1.
  erewrite bind_Ok by reflexivity.
  set (r1 := fold_left (lie_option_step (votes (game w))) opts (players (game w), [])).
  assert (Hj1 : joined (fst r1) (votes (game w))).
  { intros k Hk. unfold r1. rewrite fold_lie_option_step_mem. apply Hj. exact Hk. }
  pose proof (truth_votes_loop (Question.answer q) (votes (game w)) (fst r1) [] w1 Hj1)
    as H2.
  erewrite bind_Ok by exact H2.
  erewrite bind_Ok by reflexivity.
  unfold broadcast_state, get_reveal_sequence, current_question.
  msimpl. rewrite Hq. msimpl.
  eexists. eexists. reflexivity.
Qed.

(** *** The scoring law *)

Lemma sumZ_ext {A} (f g : A -> Z) l :
  (forall a, In a l -> f a = g a) -> sumZ f l = sumZ g l.
Proof.
  induction l as [|a l IH]; simpl; intros H; [reflexivity|].
  rewrite (H a) by now left. rewrite IH; [reflexivity|].
  intros; apply H; now right.
Qed.

Lemma sumZ_plus {A} (f g : A -> Z) l :
  sumZ (fun a => (f a + g a)%Z) l = (sumZ f l + sumZ g l)%Z.
Proof. induction l as [|a l IH]; simpl; [reflexivity | rewrite IH; lia]. Qed.

Lemma sumZ_filter {A} (p : A -> bool) (f : A -> Z) l :
  sumZ (fun a => if p a then f a else 0%Z) l = sumZ f (filter p l).
Proof.
  induction l as [|a l IH]; simpl; [reflexivity|].
  destruct (p a); simpl; rewrite IH; reflexivity.
Qed.

Lemma sumZ_map {A B} (h : A -> B) (f : B -> Z) l :
  sumZ f (map h l) = sumZ (fun a => f (h a)) l.
Proof. induction l as [|a l IH]; simpl; [reflexivity | now rewrite IH]. Qed.

Lemma lie_votes_score o vs k : forall ps voters,
  Opt.type o <> Opt.TRUTH ->
  (Opt.type o = Opt.LIE -> exists a, Opt.sid o = Some a /\ Dict.mem a ps = true) ->
  score (fst (fold_left (lie_vote_step o) vs (ps, voters))) k
  = (score ps k + sumZ (fun v => vote_award o (fst v) (snd v) k) vs)%Z.
Proof.
  induction vs as [|[vid vt] vs IH]; intros ps voters Hnt Ha;
    cbn [fold_left sumZ fold_right]; [cbn; lia|].
  fold (sumZ (fun v => vote_award o (fst v) (snd v) k) vs).
  assert (Hstep :
    score (fst (lie_vote_step o (ps, voters) (vid, vt))) k
    = (score ps k + vote_award o vid vt k)%Z).
  { unfold lie_vote_step, vote_award. cbn [fst snd].
    destruct (String.eqb vt (Opt.text o)); cbn [fst]; [|lia].
    destruct (Opt.type o) eqn:Hty; [congruence| |lia].
    destruct (Ha eq_refl) as (a & Hsid & Hmem). rewrite Hsid.
    destruct (negb (String.eqb vid a)); cbn [andb]; [|lia].
    apply score_award. exact Hmem. }
  pose proof (fun j => lie_vote_step_mem o ps voters (vid, vt) j) as Hmem.
  destruct (lie_vote_step o (ps, voters) (vid, vt)) as [ps1 voters1].
  cbn [fst snd] in *.
  rewrite IH; [rewrite Hstep; lia | exact Hnt |].
  intros Hty. destruct (Ha Hty) as (a & Hsid & Ham).
  exists a. split; [exact Hsid|]. rewrite Hmem. exact Ham.
Qed.

Lemma lie_options_score vs k opts : forall ps events,
  authors_joined ps opts ->
  score (fst (fold_left (lie_option_step vs) opts (ps, events))) k
  = (score ps k +
     sumZ (fun o => if is_truth o then 0
                    else sumZ (fun v => vote_award o (fst v) (snd v) k) vs) opts)%Z.
Proof.
  induction opts as [|o opts IH]; intros ps events Ha;
    cbn [fold_left sumZ fold_right]; [cbn; lia|].
  match goal with
  | |- context [fold_right ?F 0%Z opts] =>
      change (fold_right F 0%Z opts)
        with (sumZ (fun o => if is_truth o then 0%Z
                             else sumZ (fun v => vote_award o (fst v) (snd v) k) vs)
                   opts)
  end.
  assert (Hstep :
    score (fst (lie_option_step vs (ps, events) o)) k
    = (score ps k + if is_truth o then 0
                    else sumZ (fun v => vote_award o (fst v) (snd v) k) vs)%Z).
  { unfold lie_option_step, is_truth.
    pose proof (lie_votes_score o vs k ps []) as H.
    destruct (fold_left (lie_vote_step o) vs (ps, [])) as [ps1 voters1].
    cbn [fst] in H.
    destruct (Opt.type o) eqn:Hty; cbn [Opt.kind_eqb fst]; [lia| |].
    - apply H; [discriminate|]. intros _. apply Ha; [now left | exact Hty].
    - apply H; [discriminate|]. discriminate. }
  pose proof (fun j => lie_option_step_mem vs ps events o j) as Hmem.
  destruct (lie_option_step vs (ps, events) o) as [ps1 events1].
  cbn [fst snd] in *.
  rewrite IH; [rewrite Hstep; lia|].
  intros o' Ho' Hty. destruct (Ha o' (or_intror Ho') Hty) as (a & Hsid & Ham).
  exists a. split; [exact Hsid|]. rewrite Hmem. exact Ham.
Qed.

Lemma truth_votes_score truth_text vs k : forall ps voters,
  joined ps vs ->
  score (fst (fold_left (truth_vote_step truth_text) vs (ps, voters))) k
  = (score ps k + sumZ (truth_award truth_text k) vs)%Z.
Proof.
  induction vs as [|[vid vt] vs IH]; intros ps voters Hj;
    cbn [fold_left sumZ fold_right]; [cbn; lia|].
  fold (sumZ (truth_award truth_text k) vs).
  apply joined_cons in Hj. destruct Hj as [Hv Hj].
  unfold truth_vote_step at 2. unfold truth_award at 1. cbn [fst snd].
  destruct (String.eqb vt truth_text).
  - rewrite IH.
    + rewrite score_award by exact Hv. lia.
    + intros j Hjn. rewrite mem_award. apply Hj. exact Hjn.
  - rewrite IH by exact Hj. lia.
Qed.

(** With one TRUTH option, carrying the truth of the question, the two
    passes add up to the law. *)
Lemma total_award_split truth_text opts vs k :
  map Opt.text (filter is_truth opts) = [truth_text] ->
  total_award opts vs k
  = (sumZ (fun o => if is_truth o then 0
                    else sumZ (fun v => vote_award o (fst v) (snd v) k) vs) opts
     + sumZ (truth_award truth_text k) vs)%Z.
Proof.
  intros Ht. unfold total_award.
  rewrite (sumZ_ext _
    (fun o => ((if is_truth o then 0
                else sumZ (fun v => vote_award o (fst v) (snd v) k) vs)
               + (if is_truth o
                  then sumZ (fun v => vote_award o (fst v) (snd v) k) vs
                  else 0))%Z)).
  2:{ intros o _. destruct (is_truth o); lia. }
  rewrite sumZ_plus. f_equal.
  rewrite sumZ_filter.
  rewrite (sumZ_ext _ (fun o => sumZ (truth_award (Opt.text o) k) vs)).
  2:{ intros o Ho. apply filter_In in Ho. destruct Ho as [_ Ho].
      apply sumZ_ext. intros v _. unfold vote_award, truth_award, is_truth in *.
      destruct (Opt.type o); try discriminate. reflexivity. }
  rewrite <- (sumZ_map Opt.text (fun t => sumZ (truth_award t k) vs)).
  rewrite Ht. simpl. lia.
Qed.

(** C5, as stated, fails: the pass never looks at the TRUTH option; it
    compares the votes with the answer of the current question.  In the
    demo game the host sends [next_round] during VOTING: the second
    question becomes the current one and the options of the first stay
    stored.  P1 and P2 then vote for ["Paris"], the text of the stored
    TRUTH option; the second vote completes the quorum, the pass
    completes, and neither voter earns anything. *)
Lemma truth_option_vote_unpaid :
  ~ scoring_as_specified /\
  state (game demo_voting) = VOTING /\
  In (truth_option (Question.mk "Capital of France?" "Paris" ["Lyon"]))
     (match current_options (game stale_round) with Some o => o | None => [] end) /\
  nth_error (questions (game stale_round)) (current_question_index (game stale_round))
  = Some (Question.mk "Largest planet?" "Jupiter" []) /\
  handle (ESubmitVote "s2" "Paris") stale_round = transition_to_reveal stale_voted /\
  fst (transition_to_reveal stale_voted) = Ok tt /\
  state (game (snd (transition_to_reveal stale_voted))) = REVEAL /\
  votes (game (snd (transition_to_reveal stale_voted)))
  = [("s1", "Paris"); ("s2", "Paris")] /\
  score_of "s1" (game stale_voted) = 0%Z /\
  score_of "s1" (game (snd (transition_to_reveal stale_voted))) = 0%Z /\
  score_of "s2" (game stale_voted) = 0%Z /\
  score_of "s2" (game (snd (transition_to_reveal stale_voted))) = 0%Z.
Proof.
  split.
  - intros H.
    assert (Hq : nth_error (questions (game stale_voted))
                   (current_question_index (game stale_voted))
                 = Some (Question.mk "Largest planet?" "Jupiter" []))
      by (vm_compute; reflexivity).
    assert (Ho : current_options (game stale_voted)
                 = Some [ lie_option "s2" "Madrid" "P2";
                          truth_option
                            (Question.mk "Capital of France?" "Paris" ["Lyon"]);
                          house_option "Lyon";
                          lie_option "s1" "Berlin" "P1" ])
      by (vm_compute; reflexivity).
    assert (Hj : joined (players (game stale_voted)) (votes (game stale_voted))).
    { intros k Hk. vm_compute in Hk.
      destruct Hk as [<-|[<-|[]]]; vm_compute; reflexivity. }
    assert (Ha : authors_joined (players (game stale_voted))
                   [ lie_option "s2" "Madrid" "P2";
                     truth_option
                       (Question.mk "Capital of France?" "Paris" ["Lyon"]);
                     house_option "Lyon";
                     lie_option "s1" "Berlin" "P1" ]).
    { intros o Ho' Hty. vm_compute in Ho'.
      destruct Ho' as [<-|[<-|[<-|[<-|[]]]]]; try discriminate Hty;
        eexists; split; vm_compute; reflexivity. }
    pose proof (H stale_voted _ _ Hq Ho Hj Ha "s1") as E.
    vm_compute in E. discriminate E.
  - split; [vm_compute; reflexivity|].
    split; [vm_compute; tauto|].
    vm_conj.
Qed.

(** C5, amended.  One run of the scoring pass over the stored options and
    the collected votes (with a current question, and voters and authors
    among the players) completes in REVEAL, and every player's score
    grows by exactly this: per vote, 1000 to the voter if the text is the
    answer of the current question; 500 to the author, and nothing to the
    voter, for the text of a PLAYER_LIE option of another player; nothing
    for one's own lie; nothing for a HOUSE_LIE option.  When the stored
    options have one TRUTH option and its text is that answer, as the
    entry to VOTING stores them, this is the law of the specification:
    1000 to the voter for the text of the TRUTH option. *)
Theorem scoring_law (w : World) (q : Question.t) (opts : list Opt.t) :
  nth_error (questions (game w)) (current_question_index (game w)) = Some q ->
  current_options (game w) = Some opts ->
  joined (players (game w)) (votes (game w)) ->
  authors_joined (players (game w)) opts ->
  exists w',
    transition_to_reveal w = (Ok tt, w') /\
    state (game w') = REVEAL /\
    (forall k,
       score_of k (game w')
       = (score_of k (game w)
          + pass_award (Question.answer q) opts (votes (game w)) k)%Z) /\
    (map Opt.text (filter is_truth opts) = [Question.answer q] ->
     forall k,
       score_of k (game w')
       = (score_of k (game w) + total_award opts (votes (game w)) k)%Z).
Proof.
  intros Hq Ho Hj Ha.
  destruct (transition_to_reveal_run w q opts Hq Ho Hj Ha) as (events & m & Hrun).
  eexists. split; [exact Hrun|]. split; [reflexivity|].
  assert (Hpass : forall k,
    score (scored_players (Question.answer q) opts (votes (game w))
                          (players (game w))) k
    = (score (players (game w)) k
       + pass_award (Question.answer q) opts (votes (game w)) k)%Z).
  { intros k. unfold scored_players, pass_award.
    rewrite truth_votes_score.
    - rewrite lie_options_score by exact Ha. lia.
    - intros j Hjn. rewrite fold_lie_option_step_mem. apply Hj. exact Hjn. }
  split.
  - intros k. exact (Hpass k).
  - intros Ht k.
    rewrite (total_award_split (Question.answer q)) by exact Ht.
    exact (Hpass k).
Qed.

Lemma scoring_law_witness :
  exists w',
    transition_to_reveal demo_voted = (Ok tt, w') /\
    score_of "s1" (game w') = 0%Z /\
    score_of "s2" (game w') = 1500%Z.
Proof.
  destruct (scoring_law demo_voted
              (Question.mk "Capital of France?" "Paris" ["Lyon"])
              [ lie_option "s2" "Madrid" "P2";
                truth_option (Question.mk "Capital of France?" "Paris" ["Lyon"]);
                house_option "Lyon";
                lie_option "s1" "Berlin" "P1" ])
    as (w' & Hrun & _ & _ & Hscore).
  - vm_compute; reflexivity.
  - vm_compute; reflexivity.
  - intros k Hk. vm_compute in Hk.
    destruct Hk as [<-|[<-|[]]]; vm_compute; reflexivity.
  - intros o Ho Hty. vm_compute in Ho.
    destruct Ho as [<-|[<-|[<-|[<-|[]]]]]; try discriminate Hty;
      eexists; split; vm_compute; reflexivity.
  - exists w'. split; [exact Hrun|].
    split; rewrite (Hscore eq_refl); vm_compute; reflexivity.
Defined.

(* ===================================================================== *)
(** ** Framing by a preorder *)
(* ===================================================================== *)

Section Steps.
Context (R : GameState -> GameState -> Prop).
Hypothesis R_refl : forall g, R g g.
Hypothesis R_trans : forall g1 g2 g3, R g1 g2 -> R g2 g3 -> R g1 g3.

Lemma steps_ret {A} (a : A) : steps R (ret a).
Proof. intros w. apply R_refl. Qed.

Lemma steps_raise {A} e : steps R (@raise A e).
Proof. intros w. apply R_refl. Qed.

Lemma steps_get_game : steps R get_game.
Proof. intros w. apply R_refl. Qed.

Lemma steps_emit a m : steps R (emit a m).
Proof. intros w. apply R_refl. Qed.

Lemma steps_randbelow n : steps R (randbelow n).
Proof. intros w. unfold randbelow. destruct (rng w); apply R_refl. Qed.

Lemma steps_modify h : (forall g, R g (h g)) -> steps R (modify h).
Proof. intros H w. simpl. apply H. Qed.

Lemma steps_bind {A B} (c : M A) (k : A -> M B) :
  steps R c -> (forall a, steps R (k a)) -> steps R (bind c k).
Proof.
  intros Hc Hk w. unfold bind.
  specialize (Hc w). destruct (c w) as [[a|e] w1]; simpl in *.
  - eapply R_trans; [exact Hc | apply Hk].
  - exact Hc.
Qed.

Lemma steps_foldM {A B} (h : B -> A -> M B) l :
  (forall b a, steps R (h b a)) -> forall b, steps R (foldM h b l).
Proof.
  intros H. induction l as [|a l IH]; intros b; simpl.
  - apply steps_ret.
  - apply steps_bind; [apply H | intros; apply IH].
Qed.

Lemma steps_shuffle_from {A} i : forall (x : list A), steps R (shuffle_from i x).
Proof.
  induction i as [|i IH]; intros x; simpl.
  - apply steps_ret.
  - apply steps_bind; [apply steps_randbelow | intros; apply IH].
Qed.

Lemma steps_shuffle {A} (x : list A) : steps R (shuffle x).
Proof. apply steps_shuffle_from. Qed.

(** A computation that keeps the whole game keeps it related. *)
Lemma steps_of_keeps {A} (c : M A) : keeps (fun g => g) c -> steps R c.
Proof. intros H w. rewrite (H w). apply R_refl. Qed.

Lemma steps_broadcast_state : steps R broadcast_state.
Proof. apply steps_of_keeps. apply keeps_broadcast_state. Qed.

Lemma steps_player_at sid : steps R (player_at sid).
Proof. apply steps_of_keeps. apply keeps_player_at. Qed.

Lemma steps_current_question : steps R current_question.
Proof. apply steps_of_keeps. apply keeps_current_question. Qed.

Lemma steps_get_current_options : steps R get_current_options.
Proof. apply steps_of_keeps. apply keeps_get_current_options. Qed.

End Steps.

Ltac steps_step :=
  match goal with
  | |- steps _ (bind _ _) => apply steps_bind; [assumption | |intros]
  | |- steps _ (ret _) => apply steps_ret; assumption
  | |- steps _ (raise _) => apply steps_raise; assumption
  | |- steps _ get_game => apply steps_get_game; assumption
  | |- steps _ (emit _ _) => apply steps_emit; assumption
  | |- steps _ (shuffle _) => apply steps_shuffle; assumption
  | |- steps _ broadcast_state => apply steps_broadcast_state; assumption
  | |- steps _ (player_at _) => apply steps_player_at; assumption
  | |- steps _ current_question => apply steps_current_question; assumption
  | |- steps _ get_current_options =>
      apply steps_get_current_options; assumption
  | |- steps _ (foldM _ _ _) => apply steps_foldM; [assumption | assumption | intros]
  | |- steps _ (forM_ _ _) => apply steps_foldM; [assumption | assumption | intros]
  | |- steps _ (match ?x with _ => _ end) => destruct x
  | |- steps _ (if ?x then _ else _) => destruct x
  end.

Ltac steps_tac := repeat steps_step.

(* ===================================================================== *)
(** ** Players and scores across events *)
(* ===================================================================== *)

Lemma steps_next_round_event (R : GameState -> GameState -> Prop) :
  (forall g1 g2 g3, R g1 g2 -> R g2 g3 -> R g1 g3) ->
  (forall g, R g (fst (next_round g))) ->
  steps R (modify (set_state BLUFF_INPUT) ;; modify reset_round_data ;;
           broadcast_state ;; start_timer 60 auto_advance_input_cb) ->
  steps R (modify (set_state SCOREBOARD) ;; broadcast_state) ->
  steps R next_round_event.
Proof.
  intros Htrans Hnr Hmore Hover w.
  unfold next_round_event. unfold bind at 1. unfold get_game at 1.
  cbv beta iota. specialize (Hnr (game w)).
  destruct (next_round (game w)) as [g1 more]. cbn [fst] in Hnr.
  match goal with
  | |- context [bind (modify ?h) ?k w] =>
      change (bind (modify h) k w)
        with (k tt (mkWorld g1 (outbox w) (rng w)))
  end.
  cbv beta. eapply Htrans; [exact Hnr|].
  destruct more.
  - apply (Hmore (mkWorld g1 (outbox w) (rng w))).
  - apply (Hover (mkWorld g1 (outbox w) (rng w))).
Qed.

Lemma record_kept_refl g : record_kept g g.
Proof.
  split; [reflexivity|]. intros k p Hp. exists p. repeat split; [exact Hp | lia].
Qed.

Lemma record_kept_trans g1 g2 g3 :
  record_kept g1 g2 -> record_kept g2 g3 -> record_kept g1 g3.
Proof.
  intros [K1 H1] [K2 H2]. split; [congruence|].
  intros k p Hp. destruct (H1 k p Hp) as (p2 & Hp2 & Hn2 & Hc2 & Hs2).
  destruct (H2 k p2 Hp2) as (p3 & Hp3 & Hn3 & Hc3 & Hs3).
  exists p3. repeat split; [exact Hp3 | congruence | congruence | lia].
Qed.

Lemma record_kept_same g g' : players g' = players g -> record_kept g g'.
Proof. intros H. unfold record_kept. rewrite H. apply record_kept_refl. Qed.

Lemma steps_add_score sid n :
  (0 <= n)%Z -> steps record_kept (add_score sid n).
Proof.
  intros Hn w. unfold add_score, player_at. msimpl.
  destruct (Dict.get sid (players (game w))) as [p|] eqn:Hp; cbn [snd game];
    [|apply record_kept_refl].
  split; cbn [players set_players].
  - apply keys_set_mem. unfold Dict.mem. now rewrite Hp.
  - intros k p0 Hp0. destruct (String.eqb_spec k sid) as [->|Hk].
    + rewrite get_set_eq. eexists. split; [reflexivity|].
      assert (p0 = p) by congruence. subst p0.
      unfold Player.add_score. cbn. repeat split. lia.
    + rewrite get_set_neq by exact Hk. exists p0.
      repeat split; [exact Hp0 | lia].
Qed.

Ltac record_kept_tac :=
  pose proof record_kept_refl as R_refl;
  pose proof record_kept_trans as R_trans;
  repeat first
    [ steps_step
    | apply steps_add_score; lia
    | apply steps_modify; intros; apply record_kept_same; reflexivity ].

Lemma steps_record_kept_handle (e : Event) :
  is_join e = false -> steps record_kept (handle e).
Proof.
  destruct e; try discriminate; intros _;
    unfold handle, connect, host_login, add_question, start_game_event,
      submit_lie, submit_vote, timer_tick, run_callback, auto_advance_input,
      auto_advance_voting, transition_to_voting, transition_to_reveal,
      reveal_option_votes, start_timer.
  1-6: record_kept_tac.
  - apply steps_next_round_event.
    + apply record_kept_trans.
    + intros g. unfold next_round. destruct (_ <=? _)%nat;
        apply record_kept_same; reflexivity.
    + unfold start_timer. record_kept_tac.
    + record_kept_tac.
  - record_kept_tac.
Qed.

(** X1.  From a run without [join_game] events every player comes out
    at the same place of the table, with the same name and connection
    flag, and with a score that is no lower: no handler but [join_game]
    removes a player or takes points away, however the handlers end. *)
Theorem scores_never_decrease (es : list Event) (w : World) :
  forallb (fun e => negb (is_join e)) es = true ->
  record_kept (game w) (game (run es w)).
Proof.
  revert w. induction es as [|e es IH]; intros w H; simpl.
  - apply record_kept_refl.
  - simpl in H. apply andb_true_iff in H. destruct H as [He Hes].
    apply negb_true_iff in He.
    eapply record_kept_trans; [|apply IH; exact Hes].
    apply steps_record_kept_handle. exact He.
Qed.

Lemma scores_never_decrease_witness :
  record_kept (game demo_voting)
    (game (run [ ESubmitVote "s1" "Madrid"; ESubmitVote "s2" "Paris" ]
               demo_voting)).
Proof.
  apply (scores_never_decrease
           [ ESubmitVote "s1" "Madrid"; ESubmitVote "s2" "Paris" ] demo_voting).
  reflexivity.
Defined.

(** X2.  [join_game] stores a fresh record under the sender's id,
    whatever the broadcast that follows does: the sender's score is 0 and
    the sender is connected, also when the id was in the game with points
    before; the id keeps its place in the table, or goes last when it is
    new; every other player's record is untouched. *)
Theorem join_game_fresh_record (sid : Sid) (name : string) (w : World) :
  let ps := players (game w) in
  let ps' := players (game (snd (join_game sid name w))) in
  Dict.get sid ps' = Some (Player.mk name 0 true) /\
  (forall k, k <> sid -> Dict.get k ps' = Dict.get k ps) /\
  Dict.keys ps' =
    (if Dict.mem sid ps then Dict.keys ps else Dict.keys ps ++ [sid]).
Proof.
  intros ps ps'.
  assert (E : ps' = Dict.set sid (Player.mk name 0 true) ps).
  { subst ps ps'. unfold join_game.
    match goal with
    | |- context [bind (modify ?f) ?k w] =>
        change (bind (modify f) k w)
          with (k tt (mkWorld (f (game w)) (outbox w) (rng w)));
        assert (K : keeps players (k tt))
    end.
    { cbv beta. keeps_tac. apply keeps_broadcast_state. }
    rewrite K. reflexivity. }
  rewrite E. split; [apply get_set_eq|]. split.
  - intros k Hk. apply get_set_neq. exact Hk.
  - destruct (Dict.mem sid ps) eqn:Hm.
    + apply keys_set_mem. exact Hm.
    + apply keys_set_new. exact Hm.
Qed.

(* ===================================================================== *)
(** ** start_game and next_round, run *)
(* ===================================================================== *)

Lemma start_game_event_run (w : World) :
  questions (game w) <> [] ->
  exists w', start_game_event w = (timer_result (game w), w') /\
             game w' = started_game (game w).
Proof.
  intros Hne.
  unfold start_game_event, broadcast_state, start_timer, current_question,
    timer_result, started_game, timer_after.
  msimpl. destruct (questions (game w)) as [|q qs] eqn:Hq; [congruence|].
  msimpl. rewrite Hq. cbn [nth_error]. msimpl.
  destruct (timer_thread (game w)) eqn:Ht; msimpl;
    (eexists; split; [reflexivity|]);
    [rewrite set_timer_thread_kept by exact Ht|]; reflexivity.
Qed.

Lemma next_round_event_run (w : World) :
  exists w',
    next_round_event w
    = (if (current_question_index (game w) + 1 <? List.length (questions (game w)))%nat
       then timer_result (game w) else Ok tt,
       w') /\
    game w' = advanced_game (game w).
Proof.
  unfold next_round_event, next_round, advanced_game.
  cbn [questions current_question_index set_current_question_index].
  unfold broadcast_state, start_timer, current_question, timer_result,
    timer_after. msimpl.
  destruct (Nat.ltb_spec (current_question_index (game w) + 1)
                         (List.length (questions (game w)))) as [Hlt|Hge];
    destruct (Nat.leb_spec (List.length (questions (game w)))
                           (current_question_index (game w) + 1));
    try lia; msimpl.
  - destruct (nth_error (questions (game w)) (current_question_index (game w) + 1))
      as [q|] eqn:Hq; [|apply nth_error_None in Hq; lia].
    msimpl.
    destruct (timer_thread (game w)) eqn:Ht; msimpl;
      (eexists; split; [reflexivity|]);
      [rewrite set_timer_thread_kept by exact Ht|]; reflexivity.
  - eexists; split; [reflexivity | reflexivity].
Qed.

(** X3.  [start_game] with an empty bank does nothing at all: no state
    change, no message, no timer.  With a question in the bank, from
    whatever phase, it puts the game at question 0 in BLUFF_INPUT with
    [time_left] at 60 and empty round data, and leaves the bank and the
    player table, scores included, as they were.  It starts the input
    timer and returns only when no timer was ever started; otherwise it
    raises [AttributeError] at [game.timer_thread.kill()], with the game
    in that state and the old task still in [game.timer_thread]. *)
Theorem start_game_event_spec (w : World) :
  (questions (game w) = [] -> start_game_event w = (Ok tt, w)) /\
  (questions (game w) <> [] ->
   exists w',
     start_game_event w = (timer_result (game w), w') /\
     state (game w') = BLUFF_INPUT /\
     current_question_index (game w') = 0%nat /\
     time_left (game w') = 60%Z /\
     timer_thread (game w') = timer_after auto_advance_input_cb (game w) /\
     submissions (game w') = Dict.empty /\
     votes (game w') = Dict.empty /\
     questions (game w') = questions (game w) /\
     players (game w') = players (game w)).
Proof.
  split.
  - intros He. unfold start_game_event. msimpl. now rewrite He.
  - intros Hne. destruct (start_game_event_run w Hne) as (w' & Hrun & Hg).
    exists w'. split; [exact Hrun|]. rewrite Hg. repeat split.
Qed.

(** Without a question nothing happens; the first start creates the input
    timer; a start during the REVEAL of the demo game raises, keeps the
    scores, and leaves the first task in place. *)
Lemma start_game_event_spec_witness :
  start_game_event (world0 []) = (Ok tt, world0 []) /\
  (exists w',
     start_game_event fresh_bank = (Ok tt, w') /\
     state (game w') = BLUFF_INPUT /\
     timer_thread (game w') = Some (Running auto_advance_input_cb)) /\
  (exists w',
     start_game_event demo_reveal = (Raise AttributeError, w') /\
     state (game w') = BLUFF_INPUT /\
     timer_thread (game w') = timer_thread (game demo_reveal) /\
     score_of "s2" (game w') = 1500%Z).
Proof.
  split; [|split].
  - apply (proj1 (start_game_event_spec (world0 []))). reflexivity.
  - destruct (proj2 (start_game_event_spec fresh_bank))
      as (w' & Hrun & Hs & _ & _ & Ht & _).
    + vm_compute. discriminate.
    + exists w'.
      replace (timer_result (game fresh_bank)) with (@Ok unit tt) in Hrun
        by (vm_compute; reflexivity).
      split; [exact Hrun|]. split; [exact Hs|].
      rewrite Ht. vm_compute; reflexivity.
  - destruct (proj2 (start_game_event_spec demo_reveal))
      as (w' & Hrun & Hs & _ & _ & Ht & _ & _ & _ & Hp).
    + vm_compute. discriminate.
    + exists w'.
      replace (timer_result (game demo_reveal)) with (@Raise unit AttributeError)
        in Hrun by (vm_compute; reflexivity).
      split; [exact Hrun|]. split; [exact Hs|].
      split; [rewrite Ht; vm_compute; reflexivity|].
      unfold score_of. rewrite Hp. vm_compute; reflexivity.
Defined.

(* ===================================================================== *)
(** ** The bank and the question index across events *)
(* ===================================================================== *)

(** X4.  Over any run of events the bank only grows at its end: the
    questions it held are still there, unchanged and at the same
    indices, and every question added since has non-blank decoys only. *)
Theorem bank_only_grows (es : list Event) (w : World) :
  exists added,
    questions (game (run es w)) = questions (game w) ++ added /\
    bank_filtered added.
Proof.
  revert w. induction es as [|e es IH]; intros w; simpl.
  - exists []. split; [now rewrite app_nil_r | constructor].
  - destruct (IH (snd (handle e w))) as (added & Hq & Hf).
    rewrite handle_questions in Hq. rewrite <- app_assoc in Hq.
    eexists. split; [exact Hq|].
    apply Forall_app. split; [|exact Hf].
    destruct e; try constructor; [|constructor].
    simpl. apply Forall_forall. intros l Hl. apply filter_In in Hl. tauto.
Qed.

Lemma round_kept_refl g : round_kept g g.
Proof. repeat split. tauto. Qed.

Lemma round_kept_trans g1 g2 g3 :
  round_kept g1 g2 -> round_kept g2 g3 -> round_kept g1 g3.
Proof.
  intros (S1 & I1 & Q1) (S2 & I2 & Q2).
  repeat split; [tauto | congruence | congruence].
Qed.

Ltac round_kept_tac :=
  pose proof round_kept_refl as R_refl;
  pose proof round_kept_trans as R_trans;
  repeat first
    [ steps_step
    | apply steps_modify; intros;
      (split; [cbn; intros HBI; first [discriminate HBI | exact HBI]
              | split; reflexivity]) ].

(** Only [add_question], [start_game] and [next_round] touch the bank or
    the index or enter BLUFF_INPUT. *)
Lemma steps_round_kept_handle (e : Event) :
  match e with
  | EAddQuestion _ _ _ | EStartGame | ENextRound => False
  | _ => True
  end ->
  steps round_kept (handle e).
Proof.
  destruct e; try tauto; intros _;
    unfold handle, connect, host_login, join_game, submit_lie, submit_vote,
      timer_tick, run_callback, auto_advance_input, auto_advance_voting,
      transition_to_voting, transition_to_reveal, reveal_option_votes,
      add_score, start_timer;
    round_kept_tac.
Qed.

Lemma bluff_has_question_handle (e : Event) (w : World) :
  bluff_has_question (game w) -> bluff_has_question (game (snd (handle e w))).
Proof.
  intros Inv.
  assert (Hkept : round_kept (game w) (game (snd (handle e w))) ->
                  bluff_has_question (game (snd (handle e w)))).
  { intros (Hs & Hi & Hq) Hb. rewrite Hi, Hq. apply Inv. apply Hs. exact Hb. }
  destruct e;
    try (apply Hkept; apply steps_round_kept_handle; exact I).
  - (* add_question *)
    unfold handle, add_question, bluff_has_question in *. msimpl.
    intros Hb. specialize (Inv Hb). rewrite length_app. lia.
  - (* start_game *)
    destruct (questions (game w)) as [|q qs] eqn:Hq.
    + simpl handle. unfold start_game_event. msimpl. rewrite Hq. exact Inv.
    + destruct (start_game_event_run w) as (w' & Hrun & Hg);
        [rewrite Hq; discriminate|].
      simpl handle. rewrite Hrun. cbn [snd]. rewrite Hg.
      intros _. cbn. rewrite Hq. simpl. lia.
  - (* next_round *)
    destruct (next_round_event_run w) as (w' & Hrun & Hg).
    simpl handle. rewrite Hrun. cbn [snd]. rewrite Hg.
    unfold advanced_game, bluff_has_question.
    destruct (Nat.ltb_spec (current_question_index (game w) + 1)
                           (List.length (questions (game w)))) as [Hlt|Hge];
      cbn; [intros _; exact Hlt | discriminate].
Qed.

(** X5.  Whatever events the server has handled since it started, if
    the phase is BLUFF_INPUT then the question index is within the bank:
    the current question exists.  (So in BLUFF_INPUT the look-up that
    opens [submit_lie] and the one of [broadcast_state] do not raise
    [IndexError].) *)
Theorem bluff_input_has_question (es : list Event) (tape : list nat) :
  let w := run es (world0 tape) in
  state (game w) = BLUFF_INPUT ->
  exists q,
    nth_error (questions (game w)) (current_question_index (game w)) = Some q /\
    current_question w = (Ok q, w).
Proof.
  intros w Hb.
  assert (Inv : forall es w0, bluff_has_question (game w0) ->
                              bluff_has_question (game (run es w0))).
  { clear. induction es as [|e es IH]; intros w0 H; simpl; [exact H|].
    apply IH. apply bluff_has_question_handle. exact H. }
  assert (Hlt : (current_question_index (game w) < List.length (questions (game w)))%nat).
  { apply (Inv es (world0 tape)); [discriminate | exact Hb]. }
  destruct (nth_error (questions (game w)) (current_question_index (game w)))
    as [q|] eqn:Hq; [|apply nth_error_None in Hq; lia].
  exists q. split; [reflexivity|].
  unfold current_question. msimpl. now rewrite Hq.
Qed.

Lemma bluff_input_has_question_witness :
  exists q,
    nth_error (questions (game (run demo_setup (world0 [5; 1; 2; 7]))))
              (current_question_index (game (run demo_setup (world0 [5; 1; 2; 7]))))
    = Some q /\
    current_question (run demo_setup (world0 [5; 1; 2; 7]))
    = (Ok q, run demo_setup (world0 [5; 1; 2; 7])).
Proof.
  apply (bluff_input_has_question demo_setup [5; 1; 2; 7]).
  vm_compute. reflexivity.
Defined.

(* ===================================================================== *)
(** ** remove_player *)
(* ===================================================================== *)

Lemma active_count_set (ps : Dict.t Player.t) sid p p' :
  Dict.get sid ps = Some p ->
  Player.connected p' = false ->
  List.length (filter (fun '(_, q) => Player.connected q) ps)
  = (List.length (filter (fun '(_, q) => Player.connected q) (Dict.set sid p' ps))
     + if Player.connected p then 1 else 0)%nat.
Proof.
  intros Hget Hc'. induction ps as [|[k q] ps IH]; simpl in *; [discriminate|].
  destruct (String.eqb_spec sid k) as [->|Hk].
  - injection Hget as ->. simpl. rewrite Hc'.
    destruct (Player.connected p); simpl; lia.
  - simpl. specialize (IH Hget).
    destruct (Player.connected q); simpl; lia.
Qed.

(** X6.  [remove_player] never deletes anything: the table keeps its
    ids and their order, every score and name, and every record but the
    one of the given id; that one is marked disconnected, which takes
    one off the count of active players if the player was connected.  For
    an id that is not in the game it returns the game as it is; nothing
    but the player table is touched. *)
Theorem remove_player_spec (sid : Sid) (g : GameState) :
  Dict.keys (players (remove_player sid g)) = Dict.keys (players g) /\
  (forall k, score_of k (remove_player sid g) = score_of k g) /\
  (forall k, name_of (players (remove_player sid g)) k = name_of (players g) k) /\
  (forall k, k <> sid ->
     Dict.get k (players (remove_player sid g)) = Dict.get k (players g)) /\
  match Dict.get sid (players g) with
  | Some p =>
      Dict.get sid (players (remove_player sid g))
      = Some (Player.mk (Player.name p) (Player.score p) false) /\
      List.length (active_players g)
      = (List.length (active_players (remove_player sid g))
         + if Player.connected p then 1 else 0)%nat
  | None => remove_player sid g = g
  end /\
  set_players (players g) (remove_player sid g) = g.
Proof.
  unfold remove_player, score_of, name_of.
  destruct (Dict.get sid (players g)) as [p|] eqn:Hp.
  - cbn [players set_players]. split.
    { apply keys_set_mem. unfold Dict.mem. now rewrite Hp. }
    split.
    { intros k. destruct (String.eqb_spec k sid) as [->|Hk].
      - now rewrite get_set_eq, Hp.
      - now rewrite get_set_neq. }
    split.
    { intros k. destruct (String.eqb_spec k sid) as [->|Hk].
      - now rewrite get_set_eq, Hp.
      - now rewrite get_set_neq. }
    split.
    { intros k Hk. now apply get_set_neq. }
    split.
    + split; [apply get_set_eq|].
      unfold active_players. rewrite !length_map.
      cbn [players set_players Dict.items].
      apply active_count_set; [exact Hp | reflexivity].
    + destruct g; reflexivity.
  - repeat split. destruct g; reflexivity.
Qed.

(* ===================================================================== *)
(** ** The countdown *)
(* ===================================================================== *)

Lemma timer_tick_running (w : World) (cb : Callback) :
  timer_thread (game w) = Some (Running cb) ->
  (1 < time_left (game w))%Z ->
  timer_tick w =
  (Ok tt,
   mkWorld (set_time_left (time_left (game w) - 1) (game w))
           (outbox w ++ [mkEmit ToAll (timer_update (time_left (game w) - 1))])
           (rng w)).
Proof.
  intros Ht Hl. unfold timer_tick. msimpl. rewrite Ht. msimpl.
  destruct (Z.ltb_spec 0 (time_left (game w) - 1)); [reflexivity | lia].
Qed.

Lemma timer_ticks_running (n : nat) : forall (w : World) (cb : Callback),
  timer_thread (game w) = Some (Running cb) ->
  (Z.of_nat n < time_left (game w))%Z ->
  game (run (repeat ETimerTick n) w)
  = set_time_left (time_left (game w) - Z.of_nat n) (game w) /\
  outbox (run (repeat ETimerTick n) w)
  = outbox w ++ countdown (time_left (game w)) n /\
  rng (run (repeat ETimerTick n) w) = rng w.
Proof.
  induction n as [|n IH]; intros w cb Ht Hl.
  - simpl. unfold countdown. simpl. rewrite app_nil_r, Z.sub_0_r.
    repeat split. destruct (game w); reflexivity.
  - cbn [repeat run handle].
    rewrite (timer_tick_running w cb Ht) by lia. cbn [snd].
    match goal with
    | |- context [run _ ?w1] =>
        destruct (IH w1 cb) as (Hg & Ho & Hr);
          [exact Ht | cbn [game time_left set_time_left]; lia |]
    end.
    cbn [game outbox rng time_left set_time_left] in Hg, Ho, Hr.
    rewrite Hg, Ho, Hr.
    split; [|split; [|reflexivity]].
    + replace (time_left (game w) - 1 - Z.of_nat n)%Z
        with (time_left (game w) - Z.of_nat (S n))%Z by lia.
      reflexivity.
    + rewrite <- app_assoc. f_equal. unfold countdown.
      cbn [seq map app]. f_equal.
      rewrite <- (seq_shift n 1), map_map. apply map_ext. intros i.
      do 2 f_equal. lia.
Qed.

(** X7.  A running timer that stands at [t] does nothing in its first
    [n < t] ticks but count down and announce the time left: after them
    the game is as it was but for [time_left = t - n], the messages sent
    are the [n] countdown updates, to everybody, and the timer is still
    running.  On the tick that brings the count to zero the task leaves
    its loop for good and its completion action runs. *)
Theorem timer_counts_down (n : nat) (w : World) (cb : Callback) :
  timer_thread (game w) = Some (Running cb) ->
  (Z.of_nat n < time_left (game w))%Z ->
  let w' := run (repeat ETimerTick n) w in
  game w' = set_time_left (time_left (game w) - Z.of_nat n) (game w) /\
  outbox w' = outbox w ++ countdown (time_left (game w)) n /\
  timer_thread (game w') = Some (Running cb) /\
  (time_left (game w') = 1%Z ->
   timer_tick w' =
   run_callback cb
     (mkWorld (set_timer_thread (Some (Ended cb)) (set_time_left 0 (game w')))
              (outbox w' ++ [mkEmit ToAll (timer_update 0)]) (rng w'))).
Proof.
  intros Ht Hl w'.
  destruct (timer_ticks_running n w cb Ht Hl) as (Hg & Ho & Hr).
  fold w' in Hg, Ho, Hr.
  assert (Ht' : timer_thread (game w') = Some (Running cb))
    by (rewrite Hg; exact Ht).
  split; [exact Hg|]. split; [exact Ho|]. split; [exact Ht'|].
  intros H1. unfold timer_tick. msimpl. rewrite Ht'. msimpl. rewrite H1.
  reflexivity.
Qed.

(** The input timer of the demo game, from 60 down to 1. *)
Lemma timer_counts_down_witness :
  timer_thread (game demo_bluff) = Some (Running auto_advance_input_cb) /\
  game (run (repeat ETimerTick 59) demo_bluff)
  = set_time_left 1 (game demo_bluff) /\
  List.length (outbox (run (repeat ETimerTick 59) demo_bluff))
  = (List.length (outbox demo_bluff) + 59)%nat.
Proof.
  split; [vm_compute; reflexivity|].
  destruct (timer_counts_down 59 demo_bluff auto_advance_input_cb)
    as (Hg & Ho & _).
  - vm_compute; reflexivity.
  - vm_compute. reflexivity.
  - split.
    + rewrite Hg. vm_compute. reflexivity.
    + rewrite Ho. rewrite length_app. reflexivity.
Defined.

(* ===================================================================== *)
(** ** Expiry of the input timer *)
(* ===================================================================== *)






(* ===================================================================== *)
(** ** The reveal sequence *)
(* ===================================================================== *)

Lemma lie_vote_step_name o ps voters v k :
  name_of (fst (lie_vote_step o (ps, voters) v)) k = name_of ps k.
Proof.
  destruct v as [vid vt]. simpl.
  destruct (String.eqb vt (Opt.text o)); [|reflexivity]. simpl.
  destruct (Opt.type o); try reflexivity.
  destruct (Opt.sid o); [|reflexivity].
  destruct (negb _); [apply name_of_award | reflexivity].
Qed.

Lemma lie_votes_voters o vs : forall ps voters,
  (forall k, name_of (fst (fold_left (lie_vote_step o) vs (ps, voters))) k
             = name_of ps k) /\
  snd (fold_left (lie_vote_step o) vs (ps, voters))
  = voters ++ voters_of ps vs (Opt.text o).
Proof.
  unfold voters_of.
  induction vs as [|[vid vt] vs IH]; intros ps voters; cbn [fold_left].
  - split; [reflexivity | simpl; now rewrite app_nil_r].
  - pose proof (fun k => lie_vote_step_name o ps voters (vid, vt) k) as Hn.
    assert (Hv : snd (lie_vote_step o (ps, voters) (vid, vt))
                 = voters ++ (if String.eqb vt (Opt.text o)
                              then [name_of ps vid] else [])).
    { simpl. destruct (String.eqb vt (Opt.text o)); simpl;
        [reflexivity | now rewrite app_nil_r]. }
    destruct (lie_vote_step o (ps, voters) (vid, vt)) as [ps1 voters1].
    cbn [fst snd] in Hn, Hv.
    destruct (IH ps1 voters1) as [IHn IHv]. split.
    + intros k. rewrite IHn. apply Hn.
    + rewrite IHv, Hv. cbn [filter snd].
      rewrite (map_ext _ (fun v => name_of ps (fst v)))
        by (intros v; apply Hn).
      destruct (String.eqb vt (Opt.text o)); simpl; rewrite <- app_assoc;
        reflexivity.
Qed.

Lemma lie_options_events vs opts : forall ps events,
  (forall k, name_of (fst (fold_left (lie_option_step vs) opts (ps, events))) k
             = name_of ps k) /\
  snd (fold_left (lie_option_step vs) opts (ps, events))
  = events ++
    map (fun o => Reveal.mk Reveal.LIE (Opt.text o) (Opt.author o)
                            (voters_of ps vs (Opt.text o)))
        (filter (fun o => negb (is_truth o)) opts).
Proof.
  induction opts as [|o opts IH]; intros ps events; cbn [fold_left].
  - split; [reflexivity | simpl; now rewrite app_nil_r].
  - assert (Hstep :
      (forall k, name_of (fst (lie_option_step vs (ps, events) o)) k = name_of ps k) /\
      snd (lie_option_step vs (ps, events) o)
      = events ++ (if negb (is_truth o)
                   then [Reveal.mk Reveal.LIE (Opt.text o) (Opt.author o)
                                   (voters_of ps vs (Opt.text o))]
                   else [])).
    { unfold lie_option_step, is_truth.
      destruct (lie_votes_voters o vs ps []) as [Hn Hv].
      destruct (fold_left (lie_vote_step o) vs (ps, [])) as [ps1 voters1].
      cbn [fst snd] in Hn, Hv. subst voters1.
      destruct (Opt.type o); cbn [Opt.kind_eqb negb fst snd app];
        (split; [first [reflexivity | exact Hn]
                | first [now rewrite app_nil_r | reflexivity]]). }
    destruct Hstep as [Hn Hv].
    destruct (lie_option_step vs (ps, events) o) as [ps1 events1].
    cbn [fst snd] in Hn, Hv.
    destruct (IH ps1 events1) as [IHn IHv]. split.
    + intros k. rewrite IHn. apply Hn.
    + rewrite IHv, Hv. cbn [filter].
      assert (Hvo : forall t, voters_of ps1 vs t = voters_of ps vs t).
      { intros t. unfold voters_of. apply map_ext. intros v. apply Hn. }
      rewrite (map_ext _ (fun o => Reveal.mk Reveal.LIE (Opt.text o) (Opt.author o)
                                             (voters_of ps vs (Opt.text o))))
        by (intros o'; now rewrite Hvo).
      destruct (negb (is_truth o)); simpl; rewrite <- app_assoc; reflexivity.
Qed.

Lemma truth_votes_voters truth_text vs : forall ps voters,
  snd (fold_left (truth_vote_step truth_text) vs (ps, voters))
  = voters ++ voters_of ps vs truth_text.
Proof.
  unfold voters_of.
  induction vs as [|[vid vt] vs IH]; intros ps voters; cbn [fold_left].
  - simpl. now rewrite app_nil_r.
  - unfold truth_vote_step at 2. cbn [filter snd].
    destruct (String.eqb vt truth_text).
    + rewrite IH.
      rewrite (map_ext _ (fun v => name_of ps (fst v)))
        by (intros v; apply name_of_award).
      simpl. now rewrite <- app_assoc.
    + apply IH.
Qed.

(** The run of the pass, with the sequence it stores. *)
Lemma transition_to_reveal_events (w : World) (q : Question.t) (opts : list Opt.t) :
  nth_error (questions (game w)) (current_question_index (game w)) = Some q ->
  current_options (game w) = Some opts ->
  joined (players (game w)) (votes (game w)) ->
  authors_joined (players (game w)) opts ->
  exists w',
    transition_to_reveal w = (Ok tt, w') /\
    reveal_sequence (game w')
    = Some (expected_reveal (Question.answer q) opts (votes (game w))
                            (players (game w))) /\
    outbox w' =
      outbox w ++
      [mkEmit ToAll
         (state_update
            (mkHostData REVEAL (time_left (game w))
               (Dict.values (players (game w')))
               (RevealView
                  (expected_reveal (Question.answer q) opts (votes (game w))
                                   (players (game w)))
                  (Question.text q) (Question.answer q))))].
Proof.
  intros Hq Ho Hj Ha. unfold transition_to_reveal.
  erewrite bind_Ok by reflexivity.
  erewrite bind_Ok
    by (unfold current_question; msimpl; rewrite Hq; reflexivity).
  erewrite bind_Ok
    by (unfold get_current_options; msimpl; rewrite Ho; reflexivity).
  set (w1 := mkWorld (set_state REVEAL (game w)) (outbox w) (rng w)).
  pose proof (reveal_options_loop opts (players (game w)) [] w1 Hj Ha) as H1.
  change (with_players (players (game w)) w1) with w1 in H1.
  change (votes (game w1)) with (votes (game w)) in H1.
  erewrite bind_Ok by exact H1.
  erewrite bind_Ok by reflexivity.
  destruct (lie_options_events (votes (game w)) opts (players (game w)) [])
    as [Hn1 He1].
  set (r1 := fold_left (lie_option_step (votes (game w))) opts (players (game w), []))
    in *.
  assert (Hj1 : joined (fst r1) (votes (game w))).
  { intros k Hk. unfold r1. rewrite fold_lie_option_step_mem. apply Hj. exact Hk. }
  pose proof (truth_votes_loop (Question.answer q) (votes (game w)) (fst r1) [] w1 Hj1)
    as H2.
  erewrite bind_Ok by exact H2.
  erewrite bind_Ok by reflexivity.
  rewrite truth_votes_voters, He1. cbn [app].
  assert (Hvo : voters_of (fst r1) (votes (game w)) (Question.answer q)
                = voters_of (players (game w)) (votes (game w)) (Question.answer q)).
  { unfold voters_of. apply map_ext. intros v. apply Hn1. }
  rewrite Hvo.
  unfold broadcast_state, get_reveal_sequence, current_question.
  msimpl. rewrite Hq. msimpl.
  eexists. split; [reflexivity|]. split; reflexivity.
Qed.

(** X9.  A reveal pass that completes stores, and sends to everybody,
    this sequence: one entry per option other than the truth, in the
    stored order of the options, each of type ['LIE'] (house lies too)
    with the option's text and author label and the names of those who
    voted that text, in voting order; then, last, the ['TRUTH'] entry
    with the answer of the question, the author label ["THE TRUTH"] and
    the names of those who voted the answer. *)
Theorem reveal_sequence_shape (w : World) (q : Question.t) (opts : list Opt.t) :
  nth_error (questions (game w)) (current_question_index (game w)) = Some q ->
  current_options (game w) = Some opts ->
  joined (players (game w)) (votes (game w)) ->
  authors_joined (players (game w)) opts ->
  exists w' ps',
    transition_to_reveal w = (Ok tt, w') /\
    reveal_sequence (game w')
    = Some (expected_reveal (Question.answer q) opts (votes (game w))
                            (players (game w))) /\
    outbox w' =
      outbox w ++
      [mkEmit ToAll
         (state_update
            (mkHostData REVEAL (time_left (game w)) ps'
               (RevealView
                  (expected_reveal (Question.answer q) opts (votes (game w))
                                   (players (game w)))
                  (Question.text q) (Question.answer q))))].
Proof.
  intros Hq Ho Hj Ha.
  destruct (transition_to_reveal_events w q opts Hq Ho Hj Ha)
    as (w' & Hrun & Hseq & Hout).
  exists w'. eexists. split; [exact Hrun|]. split; [exact Hseq | exact Hout].
Qed.

Lemma reveal_sequence_shape_witness :
  exists w',
    transition_to_reveal demo_voted = (Ok tt, w') /\
    reveal_sequence (game w')
    = Some [ Reveal.mk Reveal.LIE "Madrid" "P2" ["P1"];
             Reveal.mk Reveal.LIE "Lyon" "HOUSE" [];
             Reveal.mk Reveal.LIE "Berlin" "P1" [];
             Reveal.mk Reveal.TRUTH "Paris" "THE TRUTH" ["P2"] ].
Proof.
  destruct (reveal_sequence_shape demo_voted
              (Question.mk "Capital of France?" "Paris" ["Lyon"])
              [ lie_option "s2" "Madrid" "P2";
                truth_option (Question.mk "Capital of France?" "Paris" ["Lyon"]);
                house_option "Lyon";
                lie_option "s1" "Berlin" "P1" ])
    as (w' & ps' & Hrun & Hseq & _).
  - reflexivity.
  - reflexivity.
  - intros k Hk. vm_compute in Hk.
    destruct Hk as [<-|[<-|[]]]; reflexivity.
  - intros o Ho Hty. vm_compute in Ho.
    destruct Ho as [<-|[<-|[<-|[<-|[]]]]]; try discriminate Hty;
      eexists; split; reflexivity.
  - exists w'. split; [exact Hrun|]. rewrite Hseq. vm_compute. reflexivity.
Defined.

(* ===================================================================== *)
(** ** Edges of the reveal and of the transitions *)
(* ===================================================================== *)

Lemma lie_votes_no_match o vs : forall ps voters,
  (forall v, In v vs -> String.eqb (snd v) (Opt.text o) = false) ->
  fold_left (lie_vote_step o) vs (ps, voters) = (ps, voters).
Proof.
  induction vs as [|[vid vt] vs IH]; intros ps voters H; cbn [fold_left];
    [reflexivity|].
  pose proof (H (vid, vt) (or_introl eq_refl)) as E. cbn [snd] in E.
  assert (Hs : lie_vote_step o (ps, voters) (vid, vt) = (ps, voters))
    by (unfold lie_vote_step; rewrite E; reflexivity).
  rewrite Hs. apply IH. intros v Hv. apply H. now right.
Qed.

Lemma lie_options_no_match vs opts : forall ps events,
  (forall o v, In o opts -> is_truth o = false -> In v vs ->
               String.eqb (snd v) (Opt.text o) = false) ->
  fst (fold_left (lie_option_step vs) opts (ps, events)) = ps.
Proof.
  induction opts as [|o opts IH]; intros ps events H; cbn [fold_left];
    [reflexivity|].
  assert (Hstep : fst (lie_option_step vs (ps, events) o) = ps).
  { unfold lie_option_step.
    destruct (Opt.type o) eqn:Hty; [reflexivity| |];
      (rewrite lie_votes_no_match; [reflexivity|]);
      intros v Hv; apply (H o v (or_introl eq_refl)); try exact Hv;
      unfold is_truth; now rewrite Hty. }
  destruct (lie_option_step vs (ps, events) o) as [ps1 events1].
  cbn [fst] in Hstep. subst ps1.
  apply IH. intros o' v Ho'. apply H. now right.
Qed.

Lemma truth_votes_no_match truth_text vs : forall ps voters,
  (forall v, In v vs -> String.eqb (snd v) truth_text = false) ->
  fold_left (truth_vote_step truth_text) vs (ps, voters) = (ps, voters).
Proof.
  induction vs as [|[vid vt] vs IH]; intros ps voters H; cbn [fold_left];
    [reflexivity|].
  pose proof (H (vid, vt) (or_introl eq_refl)) as E. cbn [snd] in E.
  assert (Hs : truth_vote_step truth_text (ps, voters) (vid, vt) = (ps, voters))
    by (unfold truth_vote_step; rewrite E; reflexivity).
  rewrite Hs. apply IH. intros v Hv. apply H. now right.
Qed.

(** X10.  A reveal pass in which no vote carries the text of an option
    or the answer of the question (in particular one with no vote at
    all, as when the voting timer runs out on silent players) completes
    and leaves the player table, every score in it, exactly as it
    was. *)
Theorem reveal_without_matching_vote (w : World) (q : Question.t) (opts : list Opt.t) :
  nth_error (questions (game w)) (current_question_index (game w)) = Some q ->
  current_options (game w) = Some opts ->
  joined (players (game w)) (votes (game w)) ->
  authors_joined (players (game w)) opts ->
  (forall v, In v (Dict.items (votes (game w))) ->
     String.eqb (snd v) (Question.answer q) = false /\
     forall o, In o opts -> String.eqb (snd v) (Opt.text o) = false) ->
  exists w',
    transition_to_reveal w = (Ok tt, w') /\
    state (game w') = REVEAL /\
    players (game w') = players (game w).
Proof.
  intros Hq Ho Hj Ha Hno.
  destruct (transition_to_reveal_run w q opts Hq Ho Hj Ha) as (events & m & Hrun).
  eexists. split; [exact Hrun|]. split; [reflexivity|].
  cbn [game players set_reveal_sequence set_players]. unfold scored_players.
  rewrite lie_options_no_match.
  - rewrite truth_votes_no_match; [reflexivity|].
    intros v Hv. apply (Hno v Hv).
  - intros o v Hin _ Hv. apply (Hno v Hv). exact Hin.
Qed.

Lemma reveal_without_matching_vote_witness :
  exists w',
    transition_to_reveal demo_voting = (Ok tt, w') /\
    state (game w') = REVEAL /\
    players (game w') = players (game demo_voting).
Proof.
  apply (reveal_without_matching_vote demo_voting
           (Question.mk "Capital of France?" "Paris" ["Lyon"])
           [ lie_option "s2" "Madrid" "P2";
             truth_option (Question.mk "Capital of France?" "Paris" ["Lyon"]);
             house_option "Lyon";
             lie_option "s1" "Berlin" "P1" ]).
  - reflexivity.
  - reflexivity.
  - intros k Hk. vm_compute in Hk. destruct Hk.
  - intros o Ho Hty. vm_compute in Ho.
    destruct Ho as [<-|[<-|[<-|[<-|[]]]]]; try discriminate Hty;
      eexists; split; reflexivity.
  - intros v Hv. vm_compute in Hv. destruct Hv.
Defined.

(** X11.  The transitions set the phase before they look anything up,
    and a transition that raises leaves it set.  Without a current
    question both raise [IndexError], with the phase changed and nothing
    else.  With a question, [transition_to_reveal] raises
    [AttributeError] when no option list was ever stored, and
    [transition_to_voting] raises [KeyError] when somebody who is not a
    player has a submission: the house lies of the question are then
    active, but no option list is stored, nothing is sent and no timer
    is started. *)
Theorem failed_transition_keeps_new_phase (w : World) :
  (nth_error (questions (game w)) (current_question_index (game w)) = None ->
   transition_to_voting w
   = (Raise IndexError, mkWorld (set_state VOTING (game w)) (outbox w) (rng w)) /\
   transition_to_reveal w
   = (Raise IndexError, mkWorld (set_state REVEAL (game w)) (outbox w) (rng w))) /\
  (forall q,
     nth_error (questions (game w)) (current_question_index (game w)) = Some q ->
     (current_options (game w) = None ->
      transition_to_reveal w
      = (Raise AttributeError,
         mkWorld (set_state REVEAL (game w)) (outbox w) (rng w))) /\
     ((exists k, In k (Dict.keys (submissions (game w))) /\
                 Dict.mem k (players (game w)) = false) ->
      transition_to_voting w
      = (Raise KeyError,
         mkWorld (set_house_lies_active (Question.house_lies q)
                    (set_state VOTING (game w)))
                 (outbox w) (rng w)))).
Proof. exact (failed_transition_parts w). Qed.

(** X12.  A lie sent in BLUFF_INPUT by somebody who never joined (and
    which passes the truth check) is recorded and acknowledged, and then
    the broadcast raises [KeyError] at the sender's name: nothing is
    broadcast, the quorum is not looked at, the phase stays. *)
Theorem submit_lie_unknown_sender (sid : Sid) (lie : string) (w : World) (q : Question.t) :
  state (game w) = BLUFF_INPUT ->
  nth_error (questions (game w)) (current_question_index (game w)) = Some q ->
  matches_truth lie (Question.answer q) = false ->
  Dict.mem sid (players (game w)) = false ->
  submit_lie sid lie w
  = (Raise KeyError,
     mkWorld (set_submissions (Dict.set sid lie (submissions (game w))) (game w))
             (outbox w ++ [mkEmit (ToSid sid) submitted_success])
             (rng w)).
Proof.
  intros Hs Hq Hm Hsid. unfold submit_lie.
  erewrite bind_Ok
    by (unfold current_question; msimpl; rewrite Hq; reflexivity).
  rewrite Hm.
  erewrite bind_Ok by reflexivity.
  erewrite bind_Ok by reflexivity.
  apply bind_Raise.
  unfold broadcast_state. erewrite bind_Ok by reflexivity.
  cbn [game state set_submissions]. rewrite Hs.
  apply bind_Raise.
  erewrite bind_Ok
    by (unfold current_question; msimpl; rewrite Hq; reflexivity).
  apply bind_Raise.
  apply submitted_names_loop_missing.
  exists sid. split; [|exact Hsid].
  cbn [game submissions set_submissions]. apply in_keys_set. now left.
Qed.

Lemma submit_lie_unknown_sender_witness :
  fst (submit_lie "s9" "Rome" demo_bluff) = Raise KeyError /\
  Dict.get "s9" (submissions (game (snd (submit_lie "s9" "Rome" demo_bluff))))
  = Some "Rome" /\
  state (game (snd (submit_lie "s9" "Rome" demo_bluff))) = BLUFF_INPUT.
Proof.
  rewrite (submit_lie_unknown_sender "s9" "Rome" demo_bluff
             (Question.mk "Capital of France?" "Paris" ["Lyon"]));
    try (vm_compute; reflexivity).
  vm_conj.
Defined.

Lemma failed_transition_keeps_new_phase_witness :
  transition_to_reveal (world0 [])
  = (Raise IndexError, mkWorld (set_state REVEAL init) [] []) /\
  transition_to_reveal demo_bluff
  = (Raise AttributeError,
     mkWorld (set_state REVEAL (game demo_bluff)) (outbox demo_bluff)
             (rng demo_bluff)).
Proof.
  split.
  - apply (proj1 (failed_transition_keeps_new_phase (world0 []))). reflexivity.
  - apply (proj2 (failed_transition_keeps_new_phase demo_bluff)
                 (Question.mk "Capital of France?" "Paris" ["Lyon"])).
    + vm_compute. reflexivity.
    + vm_compute. reflexivity.
Defined.

Lemma join_game_fresh_record_witness :
  score_of "s2" (game demo_reveal) = 1500%Z /\
  score_of "s2" (game (snd (join_game "s2" "P2" demo_reveal))) = 0%Z /\
  Dict.get "s1" (players (game (snd (join_game "s2" "P2" demo_reveal))))
  = Dict.get "s1" (players (game demo_reveal)).
Proof.
  destruct (join_game_fresh_record "s2" "P2" demo_reveal) as (Hnew & Hold & _).
  split; [reflexivity|]. split.
  - unfold score_of. rewrite Hnew. reflexivity.
  - apply Hold. discriminate.
Defined.

Lemma remove_player_spec_witness :
  Dict.get "s1" (players (remove_player "s2" (game demo_reveal)))
  = Dict.get "s1" (players (game demo_reveal)) /\
  score_of "s2" (remove_player "s2" (game demo_reveal)) = 1500%Z.
Proof.
  destruct (remove_player_spec "s2" (game demo_reveal))
    as (_ & Hscore & _ & Hother & _).
  split.
  - apply Hother. discriminate.
  - rewrite Hscore. reflexivity.
Defined.

(* ===================================================================== *)
(** ** The leaderboard *)
(* ===================================================================== *)

Lemma insert_by_score_perm p l : Permutation (insert_by_score p l) (p :: l).
Proof.
  induction l as [|x l IH]; simpl; [reflexivity|].
  destruct (Player.score x <=? Player.score p)%Z; [reflexivity|].
  rewrite IH. apply perm_swap.
Qed.

Lemma sorted_by_score_perm l : Permutation (sorted_by_score l) l.
Proof.
  induction l as [|p l IH]; simpl; [reflexivity|].
  rewrite insert_by_score_perm. now apply perm_skip.
Qed.

Lemma insert_by_score_sorted p l :
  StronglySorted by_score_desc l ->
  StronglySorted by_score_desc (insert_by_score p l).
Proof.
  induction 1 as [|x l Hs IH Hx]; simpl.
  - constructor; constructor.
  - destruct (Z.leb_spec (Player.score x) (Player.score p)) as [Hle|Hgt].
    + constructor; [constructor; assumption|].
      constructor; [exact Hle|].
      rewrite Forall_forall in *. intros y Hy. specialize (Hx y Hy).
      unfold by_score_desc in *. lia.
    + constructor; [exact IH|].
      rewrite Forall_forall in *. intros y Hy.
      apply (Permutation_in _ (insert_by_score_perm p l)) in Hy.
      destruct Hy as [<-|Hy]; [unfold by_score_desc; lia | apply Hx; exact Hy].
Qed.

Lemma sorted_by_score_sorted l : StronglySorted by_score_desc (sorted_by_score l).
Proof.
  induction l as [|p l IH]; simpl; [constructor|].
  apply insert_by_score_sorted. exact IH.
Qed.

Lemma insert_by_score_filter s p l :
  filter (has_score s) (insert_by_score p l) = filter (has_score s) (p :: l).
Proof.
  induction l as [|x l IH]; [reflexivity|].
  cbn [insert_by_score].
  destruct (Z.leb_spec (Player.score x) (Player.score p)) as [Hle|Hgt];
    [reflexivity|].
  cbn [filter] in *. rewrite IH.
  unfold has_score.
  destruct (Z.eqb_spec (Player.score x) s), (Z.eqb_spec (Player.score p) s);
    try reflexivity. lia.
Qed.

Lemma sorted_by_score_stable s l :
  filter (has_score s) (sorted_by_score l) = filter (has_score s) l.
Proof.
  induction l as [|p l IH]; [reflexivity|].
  cbn [sorted_by_score fold_right]. fold (sorted_by_score l).
  rewrite insert_by_score_filter. cbn [filter]. now rewrite IH.
Qed.

(** X13.  In SCOREBOARD the broadcast never raises and sends everybody
    a leaderboard that holds the records of the player table, each
    once, in descending order of score, players with equal scores in
    the order they joined. *)
Theorem scoreboard_leaderboard (w : World) :
  state (game w) = SCOREBOARD ->
  exists lb,
    broadcast_state w =
    (Ok tt,
     mkWorld (game w)
       (outbox w ++
        [mkEmit ToAll
           (state_update
              (mkHostData SCOREBOARD (time_left (game w))
                 (Dict.values (players (game w))) (ScoreboardView lb)))])
       (rng w)) /\
    Permutation lb (Dict.values (players (game w))) /\
    StronglySorted by_score_desc lb /\
    forall s, filter (has_score s) lb
              = filter (has_score s) (Dict.values (players (game w))).
Proof.
  intros Hs. exists (sorted_by_score (Dict.values (players (game w)))).
  split.
  - unfold broadcast_state. msimpl. rewrite Hs. reflexivity.
  - split; [apply sorted_by_score_perm|].
    split; [apply sorted_by_score_sorted|].
    intros s. apply sorted_by_score_stable.
Qed.

Lemma scoreboard_leaderboard_witness :
  exists lb,
    fst (broadcast_state demo_scoreboard) = Ok tt /\
    Permutation lb (Dict.values (players (game demo_scoreboard))) /\
    StronglySorted by_score_desc lb.
Proof.
  destruct (scoreboard_leaderboard demo_scoreboard)
    as (lb & Hrun & Hperm & Hsort & _).
  - reflexivity.
  - exists lb. split; [now rewrite Hrun|]. split; assumption.
Defined.

(* ===================================================================== *)
(** ** The vote quorum *)
(* ===================================================================== *)

Lemma len_set {V} (k : Sid) (v : V) (d : Dict.t V) :
  Dict.len (Dict.set k v d)
  = if Dict.mem k d then Dict.len d else S (Dict.len d).
Proof.
  unfold Dict.len. rewrite <- !(length_map fst).
  change (map fst (Dict.set k v d)) with (Dict.keys (Dict.set k v d)).
  change (map fst d) with (Dict.keys d).
  destruct (Dict.mem k d) eqn:Hm.
  - now rewrite keys_set_mem.
  - rewrite keys_set_new by exact Hm. rewrite length_app. simpl. lia.
Qed.

(** X14.  [submit_vote] stores the vote under the sender's id, so a
    player who votes again replaces their vote and is counted once;
    it acknowledges to the sender; and it runs the reveal pass exactly
    when the number of stored votes is at least the number of connected
    players, doing nothing more otherwise.  When the votes stored are
    those of connected players only, that test says exactly that every
    connected player has voted. *)
Theorem submit_vote_quorum (sid : Sid) (vote : string) (w : World) :
  let votes' := Dict.set sid vote (votes (game w)) in
  let quorum :=
    (List.length (connected_ids (players (game w))) <= Dict.len votes')%nat in
  Dict.len votes'
  = (if Dict.mem sid (votes (game w)) then Dict.len (votes (game w))
     else S (Dict.len (votes (game w)))) /\
  (quorum -> submit_vote sid vote w = transition_to_reveal (recorded_vote sid vote w)) /\
  (~ quorum -> submit_vote sid vote w = (Ok tt, recorded_vote sid vote w)) /\
  (NoDup (Dict.keys (players (game w))) ->
   NoDup (Dict.keys (votes (game w))) ->
   (forall k, In k (Dict.keys votes') ->
      exists p, Dict.get k (players (game w)) = Some p /\
                Player.connected p = true) ->
   (quorum <-> every_connected_submitted (players (game w)) votes')).
Proof.
  intros votes' quorum. split; [apply len_set|].
  assert (Hrun : submit_vote sid vote w =
                 if (List.length (connected_ids (players (game w)))
                     <=? Dict.len votes')%nat
                 then transition_to_reveal (recorded_vote sid vote w)
                 else (Ok tt, recorded_vote sid vote w)).
  { unfold submit_vote.
    erewrite bind_Ok by reflexivity.
    erewrite bind_Ok by reflexivity.
    erewrite bind_Ok by reflexivity.
    cbn [game snd votes set_votes].
    change (active_players (set_votes votes' (game w)))
      with (active_players (game w)).
    rewrite active_players_length. fold votes'.
    destruct (_ <=? _)%nat; reflexivity. }
  unfold quorum.
  split; [|split].
  - intros Hq. rewrite Hrun.
    destruct (Nat.leb_spec (List.length (connected_ids (players (game w))))
                           (Dict.len votes')); [reflexivity | lia].
  - intros Hq. rewrite Hrun.
    destruct (Nat.leb_spec (List.length (connected_ids (players (game w))))
                           (Dict.len votes')); [lia | reflexivity].
  - intros Hps Hvs Hfrom. apply quorum_by_count; try assumption.
    apply NoDup_keys_set. exact Hvs.
Qed.

Lemma submit_vote_quorum_witness :
  submit_vote "s1" "Madrid" demo_voting
  = (Ok tt, recorded_vote "s1" "Madrid" demo_voting) /\
  submit_vote "s2" "Paris" (recorded_vote "s1" "Madrid" demo_voting)
  = transition_to_reveal
      (recorded_vote "s2" "Paris" (recorded_vote "s1" "Madrid" demo_voting)).
Proof.
  split.
  - apply (submit_vote_quorum "s1" "Madrid" demo_voting). vm_compute. lia.
  - apply (submit_vote_quorum "s2" "Paris"
             (recorded_vote "s1" "Madrid" demo_voting)).
    vm_compute. lia.
Defined.

(* ===================================================================== *)
(** ** What an event may write *)
(* ===================================================================== *)

Lemma timer_tick_live (w : World) (cb : Callback) :
  timer_thread (game w) = Some (Running cb) -> timer_tick w = tick_body cb w.
Proof.
  intros Ht. unfold timer_tick, tick_body.
  unfold bind at 1. unfold get_game at 1. cbv beta iota. now rewrite Ht.
Qed.

Lemma timer_tick_idle (w : World) :
  (forall cb, timer_thread (game w) <> Some (Running cb)) ->
  timer_tick w = (Ok tt, w).
Proof.
  intros Ht. unfold timer_tick.
  unfold bind at 1. unfold get_game at 1. cbv beta iota.
  destruct (timer_thread (game w)) as [[cb|cb]|]; try reflexivity.
  exfalso. exact (Ht cb eq_refl).
Qed.

Ltac frame_step :=
  first [ apply keeps_broadcast_state | apply keeps_player_at
        | apply keeps_current_question | apply keeps_get_current_options
        | keeps_step ].

Ltac unfold_handlers :=
  unfold handle, connect, host_login, join_game, add_question,
    start_game_event, submit_lie, submit_vote, tick_body, run_callback,
    auto_advance_input, auto_advance_voting, transition_to_voting,
    transition_to_reveal, reveal_option_votes, add_score, start_timer.

(** [f] is left alone by the handler of a concrete event. *)
Ltac frame_tac :=
  match goal with
  | |- ?f (game (snd (handle ENextRound ?w))) = ?f (game ?w) =>
      revert w;
      change (steps (fun g g' => f g' = f g) next_round_event);
      apply steps_next_round_event;
      [ intros ? ? ? H1 H2; now rewrite H2
      | intros g; unfold next_round; destruct (_ <=? _)%nat; reflexivity
      | change (keeps f
          (modify (set_state BLUFF_INPUT) ;; modify reset_round_data ;;
           broadcast_state ;; start_timer 60 auto_advance_input_cb));
        unfold start_timer; repeat frame_step
      | change (keeps f (modify (set_state SCOREBOARD) ;; broadcast_state));
        repeat frame_step ]
  | H : _ = false |- ?f (game (snd (handle ETimerTick ?w))) = ?f (game ?w) =>
      simpl handle;
      cbv [writes_players writes_submissions writes_votes writes_options
           writes_reveal timer_is] in H;
      destruct (timer_thread (game w)) as [[[|]|[|]]|] eqn:Ht;
      try discriminate H; clear H;
      first
        [ rewrite (timer_tick_idle w)
            by (intros cb; rewrite Ht; discriminate);
          reflexivity
        | rewrite (timer_tick_live w _ Ht);
          match goal with
          | |- f (game (snd (?c w))) = _ =>
              clear Ht; revert w; change (keeps f c)
          end;
          unfold_handlers; repeat frame_step ]
  | |- ?f (game (snd (handle ?e ?w))) = ?f (game ?w) =>
      revert w; change (keeps f (handle e));
      unfold_handlers; repeat frame_step
  end.

(** X15.  Which event can write which part of the round, however its
    handler ends.  The player table is written only by [join_game],
    [submit_vote] and a tick of the voting timer; the submissions only
    by [submit_lie], [start_game], [next_round] and a tick of the input
    timer; the votes only by [submit_vote], [start_game] and
    [next_round]; the stored options only by [submit_lie] and a tick of
    the input timer; the reveal sequence only by [submit_vote] and a
    tick of the voting timer. *)
Theorem event_frames (e : Event) (w : World) :
  let g := game w in
  let g' := game (snd (handle e w)) in
  (writes_players e g = false -> players g' = players g) /\
  (writes_submissions e g = false -> submissions g' = submissions g) /\
  (writes_votes e g = false -> votes g' = votes g) /\
  (writes_options e g = false -> current_options g' = current_options g) /\
  (writes_reveal e g = false -> reveal_sequence g' = reveal_sequence g).
Proof.
  intros g g'. subst g g'.
  repeat split; intros H; destruct e; try discriminate H;
    try frame_tac; clear H; frame_tac.
Qed.

Lemma event_frames_witness :
  current_options (game (snd (handle (ESubmitVote "s1" "Madrid") demo_voting)))
  = current_options (game demo_voting) /\
  players (game (snd (handle (ESubmitLie "s1" "Berlin") demo_bluff)))
  = players (game demo_bluff).
Proof.
  split.
  - apply (event_frames (ESubmitVote "s1" "Madrid") demo_voting). reflexivity.
  - apply (event_frames (ESubmitLie "s1" "Berlin") demo_bluff). reflexivity.
Defined.

(* ===================================================================== *)
(** ** The stored options over a run *)
(* ===================================================================== *)

Lemma authors_joined_mono ps ps' opts :
  (forall k, Dict.mem k ps = true -> Dict.mem k ps' = true) ->
  authors_joined ps opts -> authors_joined ps' opts.
Proof.
  intros Hm Ha o Ho Hty. destruct (Ha o Ho Hty) as (a & Hsid & Hmem).
  exists a. split; [exact Hsid | apply Hm; exact Hmem].
Qed.

Lemma options_step_refl g : options_step g g.
Proof. split; [auto | now left]. Qed.

Lemma options_step_trans g1 g2 g3 :
  options_step g1 g2 -> options_step g2 g3 -> options_step g1 g3.
Proof.
  intros [M1 O1] [M2 O2]. split; [auto|].
  destruct O2 as [E2|K3]; [|now right].
  destruct O1 as [E1|K2]; [left; congruence|].
  right. intros opts Ho. rewrite E2 in Ho.
  destruct (K2 opts Ho) as [Ha Ht]. split; [|exact Ht].
  eapply authors_joined_mono; [exact M2 | exact Ha].
Qed.

Lemma options_step_ok g g' : options_ok g -> options_step g g' -> options_ok g'.
Proof.
  intros Hok [Hm [E|Hok']]; [|exact Hok'].
  intros opts Ho. rewrite E in Ho. destruct (Hok opts Ho) as [Ha Ht].
  split; [|exact Ht]. eapply authors_joined_mono; eassumption.
Qed.

Lemma options_step_same g g' :
  players g' = players g -> current_options g' = current_options g ->
  options_step g g'.
Proof. intros Hp Ho. split; [now rewrite Hp | now left]. Qed.

Lemma mem_set_mono {V} (k k' : Sid) (v : V) (d : Dict.t V) :
  Dict.mem k' d = true -> Dict.mem k' (Dict.set k v d) = true.
Proof.
  intros H. apply mem_keys. apply in_keys_set. right. now apply mem_keys.
Qed.

Lemma steps_options_add_score sid n : steps options_step (add_score sid n).
Proof.
  intros w. unfold add_score, player_at. msimpl.
  destruct (Dict.get sid (players (game w))) as [p|]; cbn [snd game];
    [|apply options_step_refl].
  split; [|now left]. intros k. cbn [players set_players]. apply mem_set_mono.
Qed.

Lemma forallb_false_exists {A} (f : A -> bool) (l : list A) :
  forallb f l = false -> exists x, In x l /\ f x = false.
Proof.
  induction l as [|a l IH]; simpl; [discriminate|].
  destruct (f a) eqn:Ha; simpl.
  - intros H. destruct (IH H) as (x & Hx & Hf). exists x. split; [now right | exact Hf].
  - intros _. exists a. split; [now left | exact Ha].
Qed.

Lemma built_options_truths q g :
  filter is_truth (built_options q g) = [truth_option q].
Proof.
  unfold built_options. cbn [app filter is_truth truth_option Opt.type Opt.kind_eqb].
  f_equal. rewrite filter_app.
  assert (H1 : forall l : list (Sid * string),
            filter is_truth
              (map (fun '(sid, lie) => lie_option sid lie (name_of (players g) sid)) l)
            = []).
  { induction l as [|[s l0] l IH]; simpl; [reflexivity | exact IH]. }
  assert (H2 : forall l, filter is_truth (map house_option l) = []).
  { induction l as [|x l IH]; simpl; [reflexivity | exact IH]. }
  now rewrite H1, H2.
Qed.

Lemma Permutation_filter {A} (f : A -> bool) (l l' : list A) :
  Permutation l l' -> Permutation (filter f l) (filter f l').
Proof.
  induction 1 as [|x l l' _ IH|x y l|l1 l2 l3 _ IH1 _ IH2]; simpl.
  - constructor.
  - destruct (f x); [now constructor | exact IH].
  - destruct (f x), (f y); try reflexivity. apply perm_swap.
  - now transitivity (filter f l2).
Qed.

Lemma steps_options_transition_to_voting : steps options_step transition_to_voting.
Proof.
  intros w.
  destruct (nth_error (questions (game w)) (current_question_index (game w)))
    as [q|] eqn:Hq.
  - destruct (forallb (fun k => Dict.mem k (players (game w)))
                      (Dict.keys (submissions (game w)))) eqn:Hall.
    + assert (Hj : joined (players (game w)) (submissions (game w))).
      { intros k Hk. rewrite forallb_forall in Hall. now apply Hall. }
      destruct (transition_to_voting_run w q Hq Hj) as (opts & t & Hrun & Hperm).
      rewrite Hrun. cbn [snd game]. split; [auto|]. right.
      intros opts' Ho. cbn in Ho. injection Ho as <-.
      cbn [players voting_game set_timer_thread set_time_left
           set_current_options set_house_lies_active set_state].
      split.
      * intros o Ho Hty. apply (Permutation_in _ Hperm) in Ho.
        unfold built_options in Ho. cbn [app] in Ho.
        destruct Ho as [<-|Ho]; [discriminate|].
        apply in_app_or in Ho. destruct Ho as [Ho|Ho]; apply in_map_iff in Ho.
        -- destruct Ho as ([k l] & <- & Hin). exists k. split; [reflexivity|].
           apply Hj. apply (in_map fst) in Hin. exact Hin.
        -- destruct Ho as (l & <- & _). discriminate.
      * rewrite (Permutation_length (Permutation_filter is_truth _ _ Hperm)).
        now rewrite built_options_truths.
    + apply forallb_false_exists in Hall.
      rewrite (proj2 (proj2 (failed_transition_parts w) q Hq) Hall).
      apply options_step_same; reflexivity.
  - rewrite (proj1 (proj1 (failed_transition_parts w) Hq)).
    apply options_step_same; reflexivity.
Qed.

Ltac options_step_tac :=
  pose proof options_step_refl as R_refl;
  pose proof options_step_trans as R_trans;
  repeat first
    [ apply steps_options_transition_to_voting
    | apply steps_options_add_score
    | steps_step
    | apply steps_modify; intros; apply options_step_same; reflexivity ].

Lemma steps_options_handle (e : Event) : steps options_step (handle e).
Proof.
  destruct e;
    unfold handle, connect, host_login, join_game, add_question,
      start_game_event, submit_lie, submit_vote, timer_tick, run_callback,
      auto_advance_input, auto_advance_voting, transition_to_reveal,
      reveal_option_votes, start_timer.
  1,2,4-7,9: options_step_tac.
  - (* join_game *)
    options_step_tac.
    apply steps_modify. intros g. split; [|now left].
    intros k. unfold add_player. cbn [players set_players]. apply mem_set_mono.
  - (* next_round *)
    apply steps_next_round_event.
    + apply options_step_trans.
    + intros g. unfold next_round. destruct (_ <=? _)%nat;
        apply options_step_same; reflexivity.
    + unfold start_timer. options_step_tac.
    + options_step_tac.
Qed.

(** X16.  In every state the server can reach, a stored option list has
    exactly one TRUTH option, and each of its PLAYER_LIE options carries
    the id of a player who is in the player table: the author a reveal
    pass would award exists. *)
Theorem stored_options_well_formed (es : list Event) (tape : list nat) :
  let g := game (run es (world0 tape)) in
  forall opts,
    current_options g = Some opts ->
    List.length (filter is_truth opts) = 1%nat /\
    forall o, In o opts -> Opt.type o = Opt.LIE ->
      exists a p, Opt.sid o = Some a /\ Dict.get a (players g) = Some p.
Proof.
  intros g.
  assert (Inv : forall es w, options_ok (game w) -> options_ok (game (run es w))).
  { clear. induction es as [|e es IH]; intros w H; simpl; [exact H|].
    apply IH. eapply options_step_ok; [exact H | apply steps_options_handle]. }
  assert (Hok : options_ok g).
  { apply Inv. intros opts Ho. discriminate Ho. }
  intros opts Ho. destruct (Hok opts Ho) as [Ha Ht].
  split; [exact Ht|].
  intros o Hin Hty. destruct (Ha o Hin Hty) as (a & Hsid & Hmem).
  unfold Dict.mem in Hmem.
  destruct (Dict.get a (players g)) as [p|] eqn:Hp; [|discriminate].
  exists a, p. split; [exact Hsid | exact Hp].
Qed.

Lemma stored_options_well_formed_witness :
  exists a p,
    Opt.sid (lie_option "s2" "Madrid" "P2") = Some a /\
    Dict.get a (players (game (run (demo_setup ++
                  [ ESubmitLie "s1" "Berlin"; ESubmitLie "s2" "Madrid" ])
                  (world0 [5; 1; 2; 7])))) = Some p.
Proof.
  apply (proj2 (stored_options_well_formed
                  (demo_setup ++ [ ESubmitLie "s1" "Berlin"; ESubmitLie "s2" "Madrid" ])
                  [5; 1; 2; 7]
                  [ lie_option "s2" "Madrid" "P2";
                    truth_option (Question.mk "Capital of France?" "Paris" ["Lyon"]);
                    house_option "Lyon";
                    lie_option "s1" "Berlin" "P1" ]
                  ltac:(vm_compute; reflexivity))).
  - left. reflexivity.
  - reflexivity.
Defined.

(* ===================================================================== *)
(** ** The truth check: case and outer whitespace *)
(* ===================================================================== *)

Lemma lower_char_idem c : PyStr.lower_char (PyStr.lower_char c) = PyStr.lower_char c.
Proof. destruct c as [[] [] [] [] [] [] [] []]; reflexivity. Qed.

Lemma isspace_lower_char c : PyStr.isspace (PyStr.lower_char c) = PyStr.isspace c.
Proof. destruct c as [[] [] [] [] [] [] [] []]; reflexivity. Qed.

Lemma lower_idem s : PyStr.lower (PyStr.lower s) = PyStr.lower s.
Proof.
  induction s as [|c s IH]; simpl; [reflexivity|].
  now rewrite lower_char_idem, IH.
Qed.

Lemma lower_append s t :
  PyStr.lower (String.append s t) = String.append (PyStr.lower s) (PyStr.lower t).
Proof. induction s as [|c s IH]; simpl; [reflexivity | now rewrite IH]. Qed.

Lemma lstrip_lower s : PyStr.lstrip (PyStr.lower s) = PyStr.lower (PyStr.lstrip s).
Proof.
  induction s as [|c s IH]; simpl; [reflexivity|].
  rewrite isspace_lower_char. destruct (PyStr.isspace c); [exact IH | reflexivity].
Qed.

Lemma rstrip_lower s : PyStr.rstrip (PyStr.lower s) = PyStr.lower (PyStr.rstrip s).
Proof.
  induction s as [|c s IH]; simpl; [reflexivity|].
  rewrite IH, isspace_lower_char.
  destruct (PyStr.rstrip s); simpl; [|reflexivity].
  destruct (PyStr.isspace c); reflexivity.
Qed.

Lemma strip_lower s : PyStr.strip (PyStr.lower s) = PyStr.lower (PyStr.strip s).
Proof. unfold PyStr.strip. now rewrite lstrip_lower, rstrip_lower. Qed.

Lemma rstrip_idem s : PyStr.rstrip (PyStr.rstrip s) = PyStr.rstrip s.
Proof.
  induction s as [|c s IH]; simpl; [reflexivity|].
  destruct (PyStr.rstrip s) as [|c' r] eqn:Hr.
  - destruct (PyStr.isspace c) eqn:Hc; simpl; [reflexivity|]. now rewrite Hc.
  - simpl. simpl in IH. rewrite IH. reflexivity.
Qed.

Lemma lstrip_head s :
  PyStr.lstrip s = EmptyString \/
  exists c t, PyStr.lstrip s = String c t /\ PyStr.isspace c = false.
Proof.
  induction s as [|c s IH]; simpl; [now left|].
  destruct (PyStr.isspace c) eqn:Hc; [exact IH|].
  right. exists c, s. split; [reflexivity | exact Hc].
Qed.

Lemma lstrip_rstrip_lstrip s :
  PyStr.lstrip (PyStr.rstrip (PyStr.lstrip s)) = PyStr.rstrip (PyStr.lstrip s).
Proof.
  destruct (lstrip_head s) as [->|(c & t & -> & Hc)]; [reflexivity|].
  simpl. destruct (PyStr.rstrip t); simpl; rewrite Hc; simpl; now rewrite ?Hc.
Qed.

Lemma strip_idem s : PyStr.strip (PyStr.strip s) = PyStr.strip s.
Proof.
  unfold PyStr.strip. rewrite lstrip_rstrip_lstrip. apply rstrip_idem.
Qed.

Lemma rstrip_app_space s ws :
  all_space ws -> PyStr.rstrip (String.append s ws) = PyStr.rstrip s.
Proof.
  intros Hws. induction s as [|c s IH]; simpl.
  - induction ws as [|c ws IHws]; simpl; [reflexivity|].
    rewrite IHws by (intros x Hx; apply Hws; now right).
    now rewrite (Hws c (or_introl eq_refl)).
  - now rewrite IH.
Qed.

Lemma lstrip_all_space ws : all_space ws -> PyStr.lstrip ws = EmptyString.
Proof.
  induction ws as [|c ws IH]; simpl; intros H; [reflexivity|].
  rewrite (H c (or_introl eq_refl)). apply IH. intros x Hx. apply H. now right.
Qed.

Lemma lstrip_app_space ws s :
  all_space ws -> PyStr.lstrip (String.append ws s) = PyStr.lstrip s.
Proof.
  induction ws as [|c ws IH]; simpl; intros H; [reflexivity|].
  rewrite (H c (or_introl eq_refl)). apply IH. intros x Hx. apply H. now right.
Qed.

Lemma strip_app_space s ws :
  all_space ws -> PyStr.strip (String.append s ws) = PyStr.strip s.
Proof.
  intros Hws. unfold PyStr.strip.
  induction s as [|c s IH]; simpl.
  - now rewrite lstrip_all_space.
  - destruct (PyStr.isspace c); [exact IH|].
    change (String c (String.append s ws)) with (String.append (String c s) ws).
    now apply rstrip_app_space.
Qed.

Lemma all_space_lower ws : all_space ws -> all_space (PyStr.lower ws).
Proof.
  induction ws as [|c ws IH]; simpl; intros H x Hx; [destruct Hx|].
  simpl in Hx. destruct Hx as [<-|Hx].
  - rewrite isspace_lower_char. apply H. now left.
  - apply IH; [|exact Hx]. intros y Hy. apply H. now right.
Qed.

(** X17.  The truth check of [submit_lie] looks at the lie and the
    answer only after [lower()] and [strip()]: it is symmetric, accepts
    the answer itself as a match, and gives the same verdict when the
    lie (or the answer) is replaced by its lower-cased or stripped form,
    or is padded with whitespace in front or behind. *)
Theorem matches_truth_normal (lie answer : string) :
  matches_truth lie answer = matches_truth answer lie /\
  matches_truth answer answer = true /\
  matches_truth (PyStr.lower lie) answer = matches_truth lie answer /\
  matches_truth (PyStr.strip lie) answer = matches_truth lie answer /\
  matches_truth lie (PyStr.strip (PyStr.lower answer)) = matches_truth lie answer /\
  forall ws1 ws2,
    all_space ws1 -> all_space ws2 ->
    matches_truth (String.append ws1 (String.append lie ws2)) answer
    = matches_truth lie answer.
Proof.
  unfold matches_truth. split; [apply String.eqb_sym|].
  split; [apply String.eqb_refl|].
  split; [now rewrite lower_idem|].
  split; [now rewrite <- strip_lower, strip_idem|].
  split.
  - now rewrite <- strip_lower, strip_idem, strip_lower, lower_idem.
  - intros ws1 ws2 H1 H2.
    rewrite !lower_append.
    assert (E : PyStr.strip (String.append (PyStr.lower ws1)
                   (String.append (PyStr.lower lie) (PyStr.lower ws2)))
                = PyStr.strip (PyStr.lower lie)).
    { unfold PyStr.strip at 1.
      rewrite lstrip_app_space by (apply all_space_lower; exact H1).
      change (PyStr.rstrip (PyStr.lstrip ?x)) with (PyStr.strip x).
      apply strip_app_space. apply all_space_lower. exact H2. }
    now rewrite E.
Qed.

Lemma matches_truth_normal_witness :
  matches_truth (String.append "  " (String.append "PARIS" " ")) "Paris"
  = matches_truth "PARIS" "Paris".
Proof.
  apply (matches_truth_normal "PARIS" "Paris").
  - intros c Hc. simpl in Hc. destruct Hc as [<-|[<-|[]]]; reflexivity.
  - intros c Hc. simpl in Hc. destruct Hc as [<-|[]]; reflexivity.
Defined.

(* ===================================================================== *)
(** ** The broadcast: when it raises *)
(* ===================================================================== *)

Lemma has_question_nth g :
  has_question g = true ->
  exists q, nth_error (questions g) (current_question_index g) = Some q.
Proof.
  unfold has_question. intros H. apply Nat.ltb_lt in H.
  destruct (nth_error (questions g) (current_question_index g)) as [q|] eqn:Hq;
    [now exists q | apply nth_error_None in Hq; lia].
Qed.

Lemma no_question_nth g :
  has_question g = false ->
  nth_error (questions g) (current_question_index g) = None.
Proof.
  unfold has_question. intros H. apply Nat.ltb_ge in H.
  now apply nth_error_None.
Qed.

(** X18.  [broadcast_state] never changes the game.  It sends exactly
    one [state_update], to everybody, carrying the phase, the time left
    and the player records, unless it raises, and then it sends nothing.
    It raises only in these cases: in BLUFF_INPUT, VOTING or REVEAL when
    there is no current question ([IndexError]); in BLUFF_INPUT when a
    submission belongs to somebody who is not a player ([KeyError]); in
    VOTING when no options are stored, and in REVEAL when no reveal
    sequence is stored ([AttributeError]).  In LOBBY and SCOREBOARD it
    never raises. *)
Theorem broadcast_state_outcome (w : World) :
  match broadcast_error (game w) with
  | None =>
      exists view,
        broadcast_state w =
        (Ok tt,
         mkWorld (game w)
           (outbox w ++
            [mkEmit ToAll
               (state_update
                  (mkHostData (state (game w)) (time_left (game w))
                     (Dict.values (players (game w))) view))])
           (rng w))
  | Some e => broadcast_state w = (Raise e, w)
  end.
Proof.
  unfold broadcast_error, broadcast_state.
  destruct (state (game w)) eqn:Hs.
  - (* LOBBY *)
    eexists. msimpl. rewrite Hs. reflexivity.
  - (* BLUFF_INPUT *)
    destruct (has_question (game w)) eqn:Hq; cbn [negb].
    + destruct (has_question_nth _ Hq) as (q & Hnth).
      destruct (forallb _ _) eqn:Hall.
      * eexists.
        erewrite bind_Ok by reflexivity. rewrite Hs.
        erewrite bind_Ok.
        2:{ erewrite bind_Ok
              by (unfold current_question; msimpl; rewrite Hnth; reflexivity).
            erewrite bind_Ok.
            2:{ apply submitted_names_loop. intros k Hk.
                rewrite forallb_forall in Hall. now apply Hall. }
            reflexivity. }
        reflexivity.
      * apply forallb_false_exists in Hall.
        erewrite bind_Ok by reflexivity. rewrite Hs.
        apply bind_Raise.
        erewrite bind_Ok
          by (unfold current_question; msimpl; rewrite Hnth; reflexivity).
        apply bind_Raise. apply submitted_names_loop_missing. exact Hall.
    + apply no_question_nth in Hq.
      erewrite bind_Ok by reflexivity. rewrite Hs.
      apply bind_Raise. apply bind_Raise.
      unfold current_question. msimpl. now rewrite Hq.
  - (* VOTING *)
    destruct (has_question (game w)) eqn:Hq; cbn [negb].
    + destruct (has_question_nth _ Hq) as (q & Hnth).
      destruct (current_options (game w)) as [opts|] eqn:Ho.
      * eexists. unfold current_question, get_current_options. msimpl.
        rewrite Hs. msimpl. rewrite Hnth, Ho. reflexivity.
      * unfold current_question, get_current_options. msimpl.
        rewrite Hs. msimpl. rewrite Hnth, Ho. reflexivity.
    + apply no_question_nth in Hq.
      unfold current_question, get_current_options. msimpl.
      rewrite Hs. msimpl. rewrite Hq. reflexivity.
  - (* REVEAL *)
    destruct (reveal_sequence (game w)) as [rs|] eqn:Hr.
    + destruct (has_question (game w)) eqn:Hq.
      * destruct (has_question_nth _ Hq) as (q & Hnth).
        eexists. unfold current_question, get_reveal_sequence. msimpl.
        rewrite Hs. msimpl. rewrite Hr, Hnth. reflexivity.
      * apply no_question_nth in Hq.
        unfold current_question, get_reveal_sequence. msimpl.
        rewrite Hs. msimpl. rewrite Hr, Hq. reflexivity.
    + unfold current_question, get_reveal_sequence. msimpl.
      rewrite Hs. msimpl. rewrite Hr. reflexivity.
  - (* SCOREBOARD *)
    eexists. msimpl. rewrite Hs. reflexivity.
Qed.
